(** * goatest: output capture and process supervision

    A shallow embedding of [threadsafe_writer.go] and [process.go] of the
    goatest package, and the properties of the capture buffer, the
    environment-file loader and the [Run]/[Stop] life cycle that its
    specification states.

    Conventions of the embedding:
    - a Go [string] and a [[]byte] are byte sequences, modelled by [string];
    - a Go [map[string]string] that may be [nil] is an
      [option (gmap string string)];
    - every method runs under the object's mutex, so a call is one atomic
      state transition [state -> state * result];
    - what the operating system answers (files, spawn, the lines the two
      pump goroutines deliver while [Run] waits) is an explicit [World];
    - what a call does to the outside (delegate writes, spawn, kill) is a
      list of [event]s. *)

From Stdlib Require Import ZArith NArith List Bool Ascii Lia.
From stdpp Require Import base option list gmap strings.

Local Open Scope Z_scope.

(** ** Errors and outcomes *)

(** Go [error] values that the package creates or passes on. *)
Inductive error : Type :=
| errorString (msg : string)              (* fmt.Errorf without %w *)
| wrapError (msg : string) (cause : error) (* fmt.Errorf("...: %w", cause) *)
| ErrTooLong                              (* bufio.ErrTooLong *)
| osError (errno : Z).                    (* *os.PathError, syscall.Errno, ... *)

Fixpoint Error (e : error) : string :=
  match e with
  | errorString msg => msg
  | wrapError msg cause => msg +:+ Error cause
  | ErrTooLong => "bufio.Scanner: token too long"
  | osError _ => "os error"
  end.

Definition Unwrap (e : error) : option error :=
  match e with
  | wrapError _ cause => Some cause
  | _ => None
  end.

(** A call either returns or panics. *)
Inductive outcome (A : Type) : Type :=
| Returned (a : A)
| Panicked (msg : string).
Arguments Returned {A} a.
Arguments Panicked {A} msg.

(** A Go slice value: [nil] or a (possibly empty) backing sequence. *)
Inductive slice (A : Type) : Type :=
| nilSlice
| mkSlice (elems : list A).
Arguments nilSlice {A}.
Arguments mkSlice {A} elems.

Definition sliceElems {A} (s : slice A) : list A :=
  match s with nilSlice => [] | mkSlice l => l end.

(** ** The parts of Go's [strings], [bytes] and [bufio] the package calls *)

Module GoStrings.

Definition len (s : string) : Z := Z.of_nat (String.length s).

Definition byte (c : ascii) : N := N_of_ascii c.

Fixpoint strDrop (n : nat) (s : string) : string :=
  match n, s with
  | O, _ => s
  | S n', String _ s' => strDrop n' s'
  | S _, EmptyString => EmptyString
  end.

Fixpoint strTake (n : nat) (s : string) : string :=
  match n, s with
  | O, _ => EmptyString
  | S n', String c s' => String c (strTake n' s')
  | S _, EmptyString => EmptyString
  end.

(** The slice expression [s[lo:hi]]; [None] is the run-time panic
    "slice bounds out of range". *)
Definition sliceStr (s : string) (lo hi : Z) : option string :=
  if (0 <=? lo) && (lo <=? hi) && (hi <=? len s)
  then Some (strTake (Z.to_nat (hi - lo)) (strDrop (Z.to_nat lo) s))
  else None.

Fixpoint HasPrefix (s prefix : string) : bool :=
  match prefix, s with
  | EmptyString, _ => true
  | String a prefix', String b s' => Ascii.eqb a b && HasPrefix s' prefix'
  | String _ _, EmptyString => false
  end.

(** [len(s) >= len(suffix) && s[len(s)-len(suffix):] == suffix] *)
Definition HasSuffix (s suffix : string) : bool :=
  (len suffix <=? len s) &&
  bool_decide (strDrop (Z.to_nat (len s - len suffix)) s = suffix).

(** [bytes.Contains] / [strings.Contains]. *)
Fixpoint Contains (s substr : string) : bool :=
  HasPrefix s substr ||
  match s with
  | EmptyString => false
  | String _ s' => Contains s' substr
  end.

(** [strings.Cut(s, string(sep))]: the text before and after the first
    [sep], [None] when [sep] does not occur. *)
Fixpoint cut (sep : ascii) (s : string) : option (string * string) :=
  match s with
  | EmptyString => None
  | String c s' =>
      if Ascii.eqb c sep then Some (EmptyString, s')
      else match cut sep s' with
           | Some (before, after) => Some (String c before, after)
           | None => None
           end
  end.

(** [strings.SplitN(s, string(sep), 2)] for a non-empty [s]. *)
Definition SplitN2 (s : string) (sep : ascii) : list string :=
  match cut sep s with
  | Some (before, after) => [before; after]
  | None => [s]
  end.

(** The table [asciiSpace] of package strings. *)
Definition asciiSpace (c : ascii) : bool :=
  match byte c with
  | 9%N | 10%N | 11%N | 12%N | 13%N | 32%N => true
  | _ => false
  end.

(** UTF-8 encodings of the non-ASCII runes for which [unicode.IsSpace]
    holds: U+0085, U+00A0 (two bytes); U+1680, U+2000..U+200A, U+2028,
    U+2029, U+202F, U+205F, U+3000 (three bytes). *)
Definition isSpace2 (b0 b1 : ascii) : bool :=
  (byte b0 =? 0xC2)%N && ((byte b1 =? 0x85)%N || (byte b1 =? 0xA0)%N).

Definition isSpace3 (b0 b1 b2 : ascii) : bool :=
  ((byte b0 =? 0xE1)%N && (byte b1 =? 0x9A)%N && (byte b2 =? 0x80)%N)
  || ((byte b0 =? 0xE2)%N && (byte b1 =? 0x80)%N &&
      (((0x80 <=? byte b2)%N && (byte b2 <=? 0x8A)%N)
       || (byte b2 =? 0xA8)%N || (byte b2 =? 0xA9)%N || (byte b2 =? 0xAF)%N))
  || ((byte b0 =? 0xE2)%N && (byte b1 =? 0x81)%N && (byte b2 =? 0x9F)%N)
  || ((byte b0 =? 0xE3)%N && (byte b1 =? 0x80)%N && (byte b2 =? 0x80)%N).

(** [strings.TrimLeftFunc(s, unicode.IsSpace)]. *)
Fixpoint TrimLeftSpace (s : string) : string :=
  match s with
  | EmptyString => s
  | String a s1 =>
      if asciiSpace a then TrimLeftSpace s1
      else match s1 with
           | EmptyString => s
           | String b s2 =>
               if isSpace2 a b then TrimLeftSpace s2
               else match s2 with
                    | EmptyString => s
                    | String c s3 =>
                        if isSpace3 a b c then TrimLeftSpace s3 else s
                    end
           end
  end.

(** The same from the end, on the reversed byte sequence. *)
Fixpoint trimRev (r : string) : string :=
  match r with
  | EmptyString => r
  | String c r1 =>
      if asciiSpace c then trimRev r1
      else match r1 with
           | EmptyString => r
           | String b r2 =>
               if isSpace2 b c then trimRev r2
               else match r2 with
                    | EmptyString => r
                    | String a r3 =>
                        if isSpace3 a b c then trimRev r3 else r
                    end
           end
  end.

Definition TrimRightSpace (s : string) : string :=
  String.rev (trimRev (String.rev s)).

(** [strings.TrimSpace]. *)
Definition TrimSpace (s : string) : string :=
  TrimRightSpace (TrimLeftSpace s).

(** The concatenation of a sequence of chunks. *)
Fixpoint concat (chunks : list string) : string :=
  match chunks with
  | [] => EmptyString
  | c :: cs => c +:+ concat cs
  end.

End GoStrings.

Module Bufio.
Import GoStrings.

(** [bufio.MaxScanTokenSize], the buffer limit of a default Scanner. *)
Definition MaxScanTokenSize : Z := 64 * 1024.

(** The pieces of [s] between line feeds; the last piece is what follows
    the last line feed (or all of [s]). *)
Fixpoint splitLF (s : string) : list string :=
  match s with
  | EmptyString => [EmptyString]
  | String c s' =>
      match splitLF s' with
      | cur :: rest =>
          if Ascii.eqb c "010" then EmptyString :: cur :: rest
          else String c cur :: rest
      | [] => [EmptyString]
      end
  end.

(** [dropCR]: one trailing carriage return is removed. *)
Definition dropCR (tok : string) : string :=
  if HasSuffix tok (String "013" EmptyString)
  then strTake (String.length tok - 1) tok
  else tok.

(** A piece fits when it and its line feed fit the scanner's buffer. *)
Definition fits (piece : string) : bool := len piece <? MaxScanTokenSize.

(** The tokens that successive [Scan]/[Text] calls with [ScanLines]
    deliver for the pieces of the input, and whether scanning stopped on
    a token too long for the buffer. *)
Fixpoint scanPieces (pieces : list string) : list string * bool :=
  match pieces with
  | [] => ([], false)
  | [final] =>
      if bool_decide (final = EmptyString) then ([], false)
      else if fits final then ([dropCR final], false)
      else ([], true)
  | piece :: rest =>
      if fits piece
      then let '(toks, long) := scanPieces rest in (dropCR piece :: toks, long)
      else ([], true)
  end.

Definition scanLines (content : string) : list string * bool :=
  scanPieces (splitLF content).

End Bufio.

Import GoStrings.

(** ** The outside world *)

(** An [io.Writer] handed in by the caller (the [LogStream]). Only its
    identity matters: what is written to it is reported as an event. *)
Definition Writer : Type := nat.

(** The [*exec.Cmd] that [Run] builds. [Proc] is [cmd.Process]: it is set
    by a successful [Start] and holds the child's pid. *)
Record Cmd : Type := mkCmd {
  Args : list string;
  CmdEnv : list string;
  Dir : string;
  Setpgid : bool;
  Proc : option Z
}.

(** Effects on the outside, in the order they happen. *)
Inductive event : Type :=
| EvDelegateWrite (w : Writer) (p : string)  (* tsw.delegate.Write(p) *)
| EvStart (c : Cmd)                          (* cmd.Start() succeeded *)
| EvKillGroup (pgid : Z)                     (* syscall.Kill(-pgid, SIGKILL) *)
| EvKillProcess (pid : Z).                   (* cmd.Process.Kill() *)

(** What [os.Open] and the reads of a scanner on the opened file give: the
    open fails, or the file delivers [content] and then ends, with an I/O
    error if [readErr] is set. *)
Inductive openResult : Type :=
| OpenFails (e : error)
| Opened (content : string) (readErr : option error).

(** What creating the pipes and starting the command give. *)
Inductive startResult : Type :=
| StdoutPipeFails (e : error)
| StderrPipeFails (e : error)
| StartFails (e : error)
| Started (pid : Z).

(** One atomic step of a pump goroutine inside [handleLine]: the write of
    a line, or the later test of the readiness predicate. The steps of the
    two goroutines interleave. *)
Inductive pumpStep : Type :=
| StepWrite (line : string)
| StepCheck.

Record World : Type := mkWorld {
  osOpen : string -> openResult;
  osEnviron : list string;
  osGetwd : option string;
  osStart : startResult;
  (* what the two pump goroutines do, in the order the locks serialise
     it: before Run reaches its own readiness message, and while Run
     blocks in select *)
  pumpedEarly : list pumpStep;
  pumpedWaiting : list pumpStep;
  (* syscall.Getpgid of a pid; None is an error *)
  osGetpgid : Z -> option Z
}.

(** ** threadsafe_writer.go *)

Record threadSafeWriter : Type := mkWriter {
  buffer : string;
  lines : list string;
  delegate : option Writer
}.

Definition newThreadSafeWriter (d : option Writer) : threadSafeWriter :=
  {| buffer := EmptyString; lines := []; delegate := d |}.

(** [Write]: the new state, the returned [(n, err)] and the delegate
    write. [bytes.Buffer.Write] always returns [len(p), nil]; the
    delegate's own result is dropped by the source. *)
Definition Write (tsw : threadSafeWriter) (p : string)
  : threadSafeWriter * (Z * option error) * list event :=
  let buffer' := buffer tsw +:+ p in
  let content := p in
  let lines' :=
    if bool_decide (content ≠ EmptyString) then lines tsw ++ [content]
    else lines tsw in
  let evs :=
    match delegate tsw with
    | Some d => [EvDelegateWrite d p]
    | None => []
    end in
  ({| buffer := buffer'; lines := lines'; delegate := delegate tsw |},
   (len p, None), evs).

Definition getOutput (tsw : threadSafeWriter) : string := buffer tsw.

(** [getLines] copies into a fresh slice made with [make], never [nil]. *)
Definition getLines (tsw : threadSafeWriter) : slice string :=
  mkSlice (lines tsw).

Definition containsOutput (tsw : threadSafeWriter) (text : string) : bool :=
  Contains (buffer tsw) text.

Definition reset (tsw : threadSafeWriter) : threadSafeWriter :=
  {| buffer := EmptyString; lines := take 0 (lines tsw);
     delegate := delegate tsw |}.

(** [time.Duration] is a count of nanoseconds. *)
Definition Millisecond : Z := 1000000.
Definition Second : Z := 1000 * Millisecond.

(** The clock of [waitForOutput]. The function reads [time.Now] once for
    the deadline and once before each poll, and between two readings in
    the loop lies a [time.Sleep] of 10ms, which lasts at least that long.
    [lag k] is the time that passes beyond this minimum before the
    reading that precedes poll [k] ([lag 0]: between the reading for the
    deadline and the first test); the clock is monotonic, so no lag is
    negative. [elapsedAt lag k] is the time since the reading for the
    deadline at the test that precedes poll [k]. *)
Fixpoint elapsedAt (lag : nat -> N) (k : nat) : Z :=
  match k with
  | O => Z.of_N (lag O)
  | S k' => elapsedAt lag k' + 10 * Millisecond + Z.of_N (lag k)
  end.

(** The loop of [waitForOutput] from its [k]-th iteration on: the test
    [time.Now().Before(deadline)], the poll, the sleep. Poll [k] sees the
    writer as the pumps left it then, [observe k]. The loop ends by the
    clock; [fuel] bounds the iterations of the model. *)
Fixpoint pollLoop (fuel : nat) (k : nat) (lag : nat -> N)
    (observe : nat -> threadSafeWriter) (text : string) (timeout : Z) : bool :=
  match fuel with
  | O => false
  | S fuel' =>
      if elapsedAt lag k <? timeout then
        if containsOutput (observe k) text then true
        else pollLoop fuel' (S k) lag observe text timeout
      else false
  end.

(** The number of multiples of 10ms strictly below the timeout: no more
    polls than this fit before the deadline. *)
Definition pollCount (timeout : Z) : nat :=
  Z.to_nat ((timeout + 10 * Millisecond - 1) / (10 * Millisecond)).

Definition waitForOutput (lag : nat -> N) (observe : nat -> threadSafeWriter)
    (text : string) (timeout : Z) : bool :=
  pollLoop (S (pollCount timeout)) 0 lag observe text timeout.

(** A history of calls on one writer. *)
Inductive writerOp : Type :=
| OpWrite (chunk : string)
| OpReset.

Definition applyOp (tsw : threadSafeWriter) (op : writerOp) : threadSafeWriter :=
  match op with
  | OpWrite chunk => (Write tsw chunk).1.1
  | OpReset => reset tsw
  end.

Definition applyOps (tsw : threadSafeWriter) (ops : list writerOp)
  : threadSafeWriter :=
  fold_left applyOp ops tsw.

(** The chunks written after the last [OpReset] of a history; the flag
    tells whether the history has a reset at all. *)
Fixpoint sinceReset (ops : list writerOp) : bool * list string :=
  match ops with
  | [] => (false, [])
  | OpWrite chunk :: ops' =>
      let '(seen, chunks) := sinceReset ops' in
      (seen, if seen then chunks else chunk :: chunks)
  | OpReset :: ops' =>
      let '(_, chunks) := sinceReset ops' in (true, chunks)
  end.

(** ** process.go *)

Record Process : Type := mkProcess {
  File : string;
  Env : option (gmap string string);
  EnvFile : string;
  LogStream : option Writer;
  WaitingFor : option (string -> bool);
  (* private fields *)
  cmd : option Cmd;
  running : bool;
  safeWriter : option threadSafeWriter
}.

Definition setEnv (e : option (gmap string string)) (p : Process) : Process :=
  mkProcess (File p) e (EnvFile p) (LogStream p) (WaitingFor p)
            (cmd p) (running p) (safeWriter p).

Definition setCmd (c : option Cmd) (p : Process) : Process :=
  mkProcess (File p) (Env p) (EnvFile p) (LogStream p) (WaitingFor p)
            c (running p) (safeWriter p).

Definition setRunning (b : bool) (p : Process) : Process :=
  mkProcess (File p) (Env p) (EnvFile p) (LogStream p) (WaitingFor p)
            (cmd p) b (safeWriter p).

Definition setSafeWriter (w : option threadSafeWriter) (p : Process) : Process :=
  mkProcess (File p) (Env p) (EnvFile p) (LogStream p) (WaitingFor p)
            (cmd p) (running p) w.

(** *** Accessors *)

Definition GetOutput (p : Process) : string :=
  match safeWriter p with
  | Some tsw => getOutput tsw
  | None => EmptyString
  end.

Definition GetLines (p : Process) : slice string :=
  match safeWriter p with
  | Some tsw => getLines tsw
  | None => nilSlice
  end.

Definition ContainsOutput (p : Process) (text : string) : bool :=
  match safeWriter p with
  | Some tsw => containsOutput tsw text
  | None => false
  end.

(** [WaitForOutput] takes the writer pointer under the lock and polls that
    writer; [observe] is what the pumps make of it over time. *)
Definition WaitForOutput (p : Process) (lag : nat -> N)
    (observe : nat -> threadSafeWriter) (text : string) (timeout : Z) : bool :=
  match safeWriter p with
  | Some _ => waitForOutput lag observe text timeout
  | None => false
  end.

Definition ResetOutput (p : Process) : Process :=
  match safeWriter p with
  | Some tsw => setSafeWriter (Some (reset tsw)) p
  | None => p
  end.

(** *** loadEnvFile *)

Definition dquote : string := String "034" EmptyString.
Definition squote : string := String "039" EmptyString.

(** The quote test of the loader. *)
Definition quoted (value : string) : bool :=
  (HasPrefix value dquote && HasSuffix value dquote)
  || (HasPrefix value squote && HasSuffix value squote).

(** The body of the scanner loop for one token [text], up to the map
    access: the token is skipped ([continue]), or it yields a key and a
    value, or the slice expression [value[1 : len(value)-1]] panics. *)
Inductive parsed : Type :=
| Skip
| Binding (key value : string)
| SliceOutOfRange.

Definition parseLine (text : string) : parsed :=
  let line := TrimSpace text in
  if bool_decide (line = EmptyString) || HasPrefix line "#" then Skip
  else
    match SplitN2 line "=" with
    | [part0; part1] =>
        let key := TrimSpace part0 in
        let value := TrimSpace part1 in
        if quoted value then
          match sliceStr value 1 (len value - 1) with
          | Some value' => Binding key value'
          | None => SliceOutOfRange
          end
        else Binding key value
    | _ => Skip
    end.

(** The whole body, on the map [env] that [p.Env] points to. Reading a
    [nil] map finds nothing; assigning into it panics. *)
Definition envLine (env : option (gmap string string)) (text : string)
  : outcome (option (gmap string string)) :=
  match parseLine text with
  | Skip => Returned env
  | SliceOutOfRange => Panicked "slice bounds out of range"
  | Binding key value =>
      match env with
      | None => Panicked "assignment to entry in nil map"
      | Some m =>
          match m !! key with
          | Some _ => Returned env
          | None => Returned (Some (<[key := value]> m))
          end
      end
  end.

(** The loop over the tokens: a panic ends it at once. *)
Fixpoint envLoop (env : option (gmap string string)) (toks : list string)
  : outcome (option (gmap string string)) * option (gmap string string) :=
  match toks with
  | [] => (Returned env, env)
  | text :: toks' =>
      match envLine env text with
      | Returned env' => envLoop env' toks'
      | Panicked msg => (Panicked msg, env)
      end
  end.

(** [loadEnvFile]: the process with its [Env] as the loop left it, and the
    returned error or the panic. *)
Definition loadEnvFile (w : World) (p : Process)
  : Process * outcome (option error) :=
  match osOpen w (EnvFile p) with
  | OpenFails err => (p, Returned (Some err))
  | Opened content readErr =>
      let '(toks, long) := Bufio.scanLines content in
      match envLoop (Env p) toks with
      | (Returned _, env') =>
          (setEnv env' p,
           Returned (if long then Some ErrTooLong else readErr))
      | (Panicked msg, env') => (setEnv env' p, Panicked msg)
      end
  end.

(** *** Run *)

(** The one-slot channel [readyChan]: [true] when a value is pending. *)
Definition chan : Type := bool.

(** What the pumps did during a call: the new process state, the
    channel, the delegate writes, and the texts on which the predicate
    was evaluated. *)
Record pumped : Type := mkPumped {
  pProc : Process;
  pChan : chan;
  pEvents : list event;
  pChecked : list string
}.

(** The closure [handleLine], first statement: write the line. *)
Definition handleLineWrite (p : Process) (line : string)
  : Process * list event :=
  match safeWriter p with
  | Some tsw =>
      let '(tsw', _, evs) := Write tsw line in
      (setSafeWriter (Some tsw') p, evs)
  | None => (p, [])
  end.

(** The closure [handleLine], second statement: evaluate the predicate on
    the writer's text and do the non-blocking send. The result is the
    channel and the text tested, if any. *)
Definition handleLineCheck (p : Process) (readyChan : chan)
  : chan * list string :=
  match WaitingFor p, safeWriter p with
  | Some ready, Some tsw =>
      let out := getOutput tsw in
      (if ready out then true else readyChan, [out])
  | _, _ => (readyChan, [])
  end.

Definition pumpStepRun (st : pumped) (step : pumpStep) : pumped :=
  match step with
  | StepWrite line =>
      let '(p', evs) := handleLineWrite (pProc st) line in
      mkPumped p' (pChan st) (pEvents st ++ evs) (pChecked st)
  | StepCheck =>
      let '(ch', outs) := handleLineCheck (pProc st) (pChan st) in
      mkPumped (pProc st) ch' (pEvents st) (pChecked st ++ outs)
  end.

(** The two pump goroutines, as the sequence of their steps. *)
Definition pump (st : pumped) (steps : list pumpStep) : pumped :=
  fold_left pumpStepRun steps st.

(** An uninterrupted call of [handleLine]. *)
Definition handleLine (st : pumped) (line : string) : pumped :=
  pump st [StepWrite line; StepCheck].

(** How the readiness wait of a [Run] call ended. *)
Inductive waitOutcome : Type :=
| NoWait                    (* no wait was made *)
| Ready                     (* a value arrived on readyChan *)
| TimedOut (after : Z).     (* time.After fired *)

Definition readinessTimeout : Z := 30 * Second.

Definition runnerMessage : string :=
  "[runner] Waiting for the readiness." +:+ String "010" EmptyString.

Record RunResult : Type := mkRunResult {
  runProc : Process;
  runRet : outcome (option error);
  runEvents : list event;
  runWait : waitOutcome;
  runChecked : list string   (* the texts the predicate was evaluated on *)
}.

Definition runDone (p : Process) (ret : outcome (option error)) : RunResult :=
  mkRunResult p ret [] NoWait [].

(** The entries of [p.Env] as [KEY=VALUE] strings. Go ranges over the
    map in an unspecified order; the order of the map's listing stands
    for it. *)
Definition envPairs (env : option (gmap string string)) : list string :=
  match env with
  | Some m => (λ kv, kv.1 +:+ "=" +:+ kv.2) <$> map_to_list m
  | None => []
  end.

(** Lines 94-97: a [nil] [Env] becomes an empty map. *)
Definition initEnv (p : Process) : Process :=
  match Env p with
  | None => setEnv (Some ∅) p
  | Some _ => p
  end.

(** Lines 99-104: the environment file is loaded when one is named. *)
Definition loadEnv (w : World) (p : Process)
  : Process * outcome (option error) :=
  if bool_decide (EnvFile p ≠ EmptyString) then loadEnvFile w p
  else (p, Returned None).

(** Lines 109-126: the command, before it is started. *)
Definition buildCmd (w : World) (p : Process) : Cmd :=
  {| Args := ["go"; "run"; File p];
     CmdEnv := osEnviron w ++ envPairs (Env p);
     Dir := default EmptyString (osGetwd w);
     Setpgid := true;
     Proc := None |}.

(** Lines 143-200: what follows a successful [Start] of [c], whose
    process is [pid]. The pumps run from here on; [Run] writes its own
    message through the same nil-guarded write as [handleLine] and then
    blocks until a value is on the channel or the timer fires. *)
Definition afterStart (w : World) (p : Process) (c : Cmd) (pid : Z)
  : RunResult :=
  let c' := mkCmd (Args c) (CmdEnv c) (Dir c) (Setpgid c) (Some pid) in
  let p5 := setRunning true (setCmd (Some c') p) in
  let st6 := pump (mkPumped p5 false [EvStart c'] []) (pumpedEarly w) in
  match WaitingFor (pProc st6) with
  | None =>
      mkRunResult (pProc st6) (Returned None) (pEvents st6) NoWait
                  (pChecked st6)
  | Some _ =>
      let '(p7, evs7) := handleLineWrite (pProc st6) runnerMessage in
      let st8 :=
        pump (mkPumped p7 (pChan st6) (pEvents st6 ++ evs7) (pChecked st6))
             (pumpedWaiting w) in
      mkRunResult (pProc st8) (Returned None) (pEvents st8)
        (if pChan st8 then Ready else TimedOut readinessTimeout)
        (pChecked st8)
  end.

(** Lines 106-141: the writer, the command, the pipes and [Start]. *)
Definition spawn (w : World) (p : Process) : RunResult :=
  let p3 := setSafeWriter (Some (newThreadSafeWriter (LogStream p))) p in
  let c := buildCmd w p3 in
  let p4 := setCmd (Some c) p3 in
  match osStart w with
  | StdoutPipeFails err | StderrPipeFails err | StartFails err =>
      runDone p4 (Returned (Some err))
  | Started pid => afterStart w p4 c pid
  end.

Definition Run (w : World) (p : Process) : RunResult :=
  if running p then runDone p (Returned None)
  else if bool_decide (File p = EmptyString) then
    runDone p (Returned (Some (errorString "no file specified")))
  else
    let '(p2, loaded) := loadEnv w (initEnv p) in
    match loaded with
    | Panicked msg => runDone p2 (Panicked msg)
    | Returned (Some err) =>
        runDone p2 (Returned (Some (wrapError "failed to load env file: " err)))
    | Returned None => spawn w p2
    end.

(** *** Stop *)

Definition Stop (w : World) (p : Process) : Process * list event :=
  match negb (running p), cmd p with
  | true, _ | _, None => (p, [])
  | false, Some c =>
      let evs :=
        match Proc c with
        | Some pid =>
            match osGetpgid w pid with
            | Some pgid => [EvKillGroup pgid]
            | None => [EvKillProcess pid]
            end
        | None => []
        end in
      (setRunning false p, evs)
  end.

(** A chunk that [Write] records in [lines]. *)
Definition nonEmpty (chunk : string) : bool :=
  bool_decide (chunk ≠ EmptyString).

(** ** The environment-file format, as the specification words it

    Blank lines and lines starting with [#] are ignored; a line is
    [KEY=VALUE], split on the first [=]; surrounding white space is
    trimmed from key and value; a value fully wrapped in matching single
    or double quotes has the quotes stripped. Blank and [#] are read on
    the line without its surrounding white space. The specification does
    not say which of two lines with one key counts: the first is taken,
    and a key the mapping already has is kept. *)
Module EnvFileSpec.

(** The last byte of a string and what precedes it. *)
Fixpoint unsnoc (s : string) : option (string * ascii) :=
  match s with
  | EmptyString => None
  | String c s' =>
      match unsnoc s' with
      | None => Some (EmptyString, c)
      | Some (init, last) => Some (String c init, last)
      end
  end.

Definition isQuote (c : ascii) : bool :=
  Ascii.eqb c "034" || Ascii.eqb c "039".

(** A value fully wrapped in matching quotes loses them. *)
Definition stripQuotes (value : string) : string :=
  match value with
  | EmptyString => value
  | String q rest =>
      match unsnoc rest with
      | Some (inner, q') =>
          if isQuote q && Ascii.eqb q q' then inner else value
      | None => value
      end
  end.

(** Key and value of a line, trimmed, before the quotes are looked at. *)
Definition rawEntry (line : string) : option (string * string) :=
  let line := TrimSpace line in
  if bool_decide (line = EmptyString) then None
  else if HasPrefix line "#" then None
  else match cut "=" line with
       | Some (k, v) => Some (TrimSpace k, TrimSpace v)
       | None => None
       end.

Definition entry (line : string) : option (string * string) :=
  match rawEntry line with
  | Some (k, v) => Some (k, stripQuotes v)
  | None => None
  end.

(** The lines of a text: what line feeds separate, without the carriage
    return that may precede the line feed. *)
Definition textLines (text : string) : list string :=
  Bufio.dropCR <$> Bufio.splitLF text.

Definition merge (m : gmap string string) (line : string)
  : gmap string string :=
  match entry line with
  | Some (k, v) =>
      match m !! k with
      | Some _ => m
      | None => <[k := v]> m
      end
  | None => m
  end.

(** The mapping a text gives, on top of the entries [m] already there. *)
Definition parseInto (m : gmap string string) (text : string)
  : gmap string string :=
  foldl merge m (textLines text).

Definition parse (text : string) : gmap string string :=
  parseInto ∅ text.

(** A line whose trimmed value is one quote character and nothing
    else. *)
Definition loneQuote (line : string) : Prop :=
  ∃ k v, rawEntry line = Some (k, v) ∧ (v = dquote ∨ v = squote).

(** Every line of the text fits the buffer of a default scanner. *)
Definition linesFit (text : string) : Prop :=
  Forall (λ piece, Bufio.fits piece = true) (Bufio.splitLF text).

End EnvFileSpec.

(** ** Auxiliary notions for the statements *)

(** Entries of [m'] are entries of [m], or bound by one of the tokens
    [toks] for a key that [m] lacks. *)
Definition mergedFrom (m : gmap string string) (toks : list string)
    (m' : gmap string string) : Prop :=
  (∀ k v, m !! k = Some v → m' !! k = Some v)
  ∧ (∀ k v, m' !! k = Some v →
       m !! k = Some v
       ∨ (m !! k = None ∧ ∃ tok, tok ∈ toks ∧ parseLine tok = Binding k v)).

(** The tokens a scanner delivers for the file [path] of world [w]. *)
Definition fileTokens (w : World) (path : string) : list string :=
  match osOpen w path with
  | OpenFails _ => []
  | Opened content _ => (Bufio.scanLines content).1
  end.

(** Two process states that differ at most in the captured output. *)
Definition sameButWriter (p q : Process) : Prop :=
  File p = File q ∧ Env p = Env q ∧ EnvFile p = EnvFile q
  ∧ LogStream p = LogStream q ∧ WaitingFor p = WaitingFor q
  ∧ cmd p = cmd q ∧ running p = running q.

Definition isDelegateWrite (ev : event) : Prop :=
  match ev with EvDelegateWrite _ _ => True | _ => False end.

(** The entry [KEY=VALUE] of a command's environment. *)
Definition envEntry (k v : string) : string := k +:+ "=" +:+ v.

(** The last byte of [String a rest]. *)
Definition lastByte (a : ascii) (rest : string) : ascii :=
  match EnvFileSpec.unsnoc rest with
  | Some (_, l) => l
  | None => a
  end.

(** A value that is one quote character and nothing else. *)
Definition isLoneQuote (v : string) : bool :=
  bool_decide (v = dquote ∨ v = squote).

(** The test for [EnvFileSpec.loneQuote]. *)
Definition loneQuoteb (line : string) : bool :=
  match EnvFileSpec.rawEntry line with
  | Some (_, v) => isLoneQuote v
  | None => false
  end.

(** [n] copies of the byte [c]. *)
Fixpoint strRepeat (n : nat) (c : ascii) : string :=
  match n with
  | O => EmptyString
  | S n' => String c (strRepeat n' c)
  end.

(** A process that names an environment file and has an empty, non-nil
    [Env], and the world in which that file holds [content]. *)
Definition envFileProcess : Process :=
  {| File := "main.go";
     Env := Some ∅;
     EnvFile := ".env";
     LogStream := None;
     WaitingFor := None;
     cmd := None;
     running := false;
     safeWriter := None |}.

Definition envFileWorld (content : string) : World :=
  {| osOpen := λ _, Opened content None;
     osEnviron := [];
     osGetwd := Some "/work";
     osStart := Started 4242;
     pumpedEarly := [];
     pumpedWaiting := [];
     osGetpgid := λ pid, Some pid |}.

(** An environment file whose only line gives [KEY] one double quote. *)
Definition loneQuoteFile : string := "KEY=" +:+ dquote.

(** An environment file whose only line is [K=] followed by 65536 bytes
    [v]: one more than a default scanner takes. *)
Definition longLineFile : string :=
  "K=" +:+ strRepeat (Z.to_nat Bufio.MaxScanTokenSize) "v".

(** A small well-formed environment file. *)
Definition sampleFile : string :=
  let lf := String "010" EmptyString in
  "# settings" +:+ lf +:+ lf +:+ " NAME = 'goat' " +:+ lf
  +:+ "URL=http://h/?a=b" +:+ lf +:+ "NAME=other" +:+ lf +:+ "plain".

(** The world in which the environment file does not exist (ENOENT). *)
Definition missingFileWorld : World :=
  {| osOpen := λ _, OpenFails (osError 2);
     osEnviron := [];
     osGetwd := Some "/work";
     osStart := Started 4242;
     pumpedEarly := [];
     pumpedWaiting := [];
     osGetpgid := λ pid, Some pid |}.

(** The world in which [cmd.Start] fails (the [go] tool is not found). *)
Definition startFailsWorld : World :=
  {| osOpen := λ _, OpenFails (osError 2);
     osEnviron := [];
     osGetwd := Some "/work";
     osStart := StartFails (osError 2);
     pumpedEarly := [];
     pumpedWaiting := [];
     osGetpgid := λ pid, Some pid |}.

(** A process that was never run: the private fields have their zero
    values. *)
Definition freshProcess : Process :=
  {| File := "main.go";
     Env := None;
     EnvFile := EmptyString;
     LogStream := Some 1%nat;
     WaitingFor := None;
     cmd := None;
     running := false;
     safeWriter := None |}.

(** A process that waits for the text [ready] in its output, and a world
    whose child prints two lines, neither of which holds it. *)
Definition waitingProcess : Process :=
  {| File := "main.go";
     Env := None;
     EnvFile := EmptyString;
     LogStream := None;
     WaitingFor := Some (λ out, Contains out "ready");
     cmd := None;
     running := false;
     safeWriter := None |}.

Definition silentWorld : World :=
  {| osOpen := λ _, OpenFails (osError 2);
     osEnviron := [];
     osGetwd := Some "/work";
     osStart := Started 4242;
     pumpedEarly := [StepWrite ("booting" +:+ String "010" EmptyString);
                     StepCheck];
     pumpedWaiting := [StepWrite ("still booting" +:+ String "010" EmptyString);
                       StepCheck];
     osGetpgid := λ pid, Some pid |}.

(** What reading the environment file [path] gives when no line makes the
    loader panic: the error of [os.Open]; [bufio.ErrTooLong] when a line
    exceeds the scanner's buffer; the error of a failed read; or nil. *)
Definition envFileFailure (w : World) (path : string) : option error :=
  match osOpen w path with
  | OpenFails err => Some err
  | Opened content readErr =>
      if (Bufio.scanLines content).2 then Some ErrTooLong else readErr
  end.

(** No line that the scanner delivers from [path] has a single quote
    character as its whole value. *)
Definition noLoneQuote (w : World) (path : string) : Prop :=
  ∀ tok, tok ∈ fileTokens w path → ¬ EnvFileSpec.loneQuote tok.

(** The error of a failed start, [None] when the command started. *)
Definition startError (r : startResult) : option error :=
  match r with
  | StdoutPipeFails err | StderrPipeFails err | StartFails err => Some err
  | Started _ => None
  end.

(** The process as [Run] has it when it creates the pipes: the loaded
    environment, a fresh writer, the command not yet started. *)
Definition prepared (w : World) (p : Process) : Process :=
  let p2 := (loadEnv w (initEnv p)).1 in
  let p3 := setSafeWriter (Some (newThreadSafeWriter (LogStream p2))) p2 in
  setCmd (Some (buildCmd w p3)) p3.

Definition startedCmd (w : World) (p : Process) (pid : Z) : Cmd :=
  let c := buildCmd w (prepared w p) in
  mkCmd (Args c) (CmdEnv c) (Dir c) (Setpgid c) (Some pid).

(** The six ways through [Run], with the result of each. *)
Inductive RunPath (w : World) (p : Process) : RunResult → Prop :=
| PathAlreadyRunning :
    running p = true →
    RunPath w p (runDone p (Returned None))
| PathNoFile :
    running p = false → File p = EmptyString →
    RunPath w p (runDone p (Returned (Some (errorString "no file specified"))))
| PathLoadPanics (msg : string) :
    running p = false → File p ≠ EmptyString →
    (loadEnv w (initEnv p)).2 = Panicked msg →
    RunPath w p (runDone (loadEnv w (initEnv p)).1 (Panicked msg))
| PathLoadFails (cause : error) :
    running p = false → File p ≠ EmptyString →
    (loadEnv w (initEnv p)).2 = Returned (Some cause) →
    RunPath w p
      (runDone (loadEnv w (initEnv p)).1
         (Returned (Some (wrapError "failed to load env file: " cause))))
| PathStartFails (err : error) :
    running p = false → File p ≠ EmptyString →
    (loadEnv w (initEnv p)).2 = Returned None →
    startError (osStart w) = Some err →
    RunPath w p (runDone (prepared w p) (Returned (Some err)))
| PathStarted (pid : Z) (r : RunResult) :
    running p = false → File p ≠ EmptyString →
    (loadEnv w (initEnv p)).2 = Returned None →
    osStart w = Started pid →
    runRet r = Returned None →
    sameButWriter
      (setRunning true (setCmd (Some (startedCmd w p pid)) (prepared w p)))
      (runProc r) →
    (∃ evs, runEvents r = EvStart (startedCmd w p pid) :: evs
            ∧ Forall isDelegateWrite evs) →
    RunPath w p r.

(** The fixture of the override test: [PORT] set to 1010 by the caller and
    to 9999 by the environment file. *)
Definition portFile : string := "PORT=9999" +:+ String "010" EmptyString.

Definition portWorld : World :=
  {| osOpen := λ _, Opened portFile None;
     osEnviron := ["HOME=/root"];
     osGetwd := Some "/work";
     osStart := Started 4242;
     pumpedEarly := [];
     pumpedWaiting := [];
     osGetpgid := λ pid, Some pid |}.

Definition portProcess : Process :=
  {| File := "test/cmd/rest_api/main.go";
     Env := Some {[ "PORT" := "1010" ]};
     EnvFile := "test/data/.env.test";
     LogStream := None;
     WaitingFor := None;
     cmd := None;
     running := false;
     safeWriter := None |}.

(** ** Further notions: histories, pump writes, occurrences *)

(** The delegate writes of a history of calls on one writer. *)
Fixpoint opsEvents (tsw : threadSafeWriter) (ops : list writerOp)
  : list event :=
  match ops with
  | [] => []
  | OpWrite chunk :: ops' =>
      (Write tsw chunk).2 ++ opsEvents (Write tsw chunk).1.1 ops'
  | OpReset :: ops' => opsEvents (reset tsw) ops'
  end.

(** All chunks a history writes, resets or not. *)
Fixpoint opsWritten (ops : list writerOp) : list string :=
  match ops with
  | [] => []
  | OpWrite chunk :: ops' => chunk :: opsWritten ops'
  | OpReset :: ops' => opsWritten ops'
  end.

(** The lines that pump steps write. *)
Fixpoint writesOf (steps : list pumpStep) : list string :=
  match steps with
  | [] => []
  | StepWrite line :: steps' => line :: writesOf steps'
  | StepCheck :: steps' => writesOf steps'
  end.

(** The chunks that reach the writer during a call of [Run] that starts
    the process: the early pump lines, [Run]'s own message when a
    predicate is configured, the pump lines during the wait. *)
Definition runWrites (w : World) (p : Process) : list string :=
  match WaitingFor p with
  | None => writesOf (pumpedEarly w)
  | Some _ =>
      writesOf (pumpedEarly w) ++ [runnerMessage] ++ writesOf (pumpedWaiting w)
  end.

(** The world [w] with another answer to [os.Open]. *)
Definition withOpen (open' : string → openResult) (w : World) : World :=
  mkWorld open' (osEnviron w) (osGetwd w) (osStart w)
          (pumpedEarly w) (pumpedWaiting w) (osGetpgid w).

(** The byte [c] occurs in [s]. *)
Fixpoint occurs (c : ascii) (s : string) : bool :=
  match s with
  | EmptyString => false
  | String a s' => Ascii.eqb a c || occurs c s'
  end.

(** ** workdir.go

    [ProjectRoot] walks from the working directory towards the root until
    a directory holds [go.mod]. The file system answers [os.Getwd],
    [filepath.EvalSymlinks] and [os.Stat]; [filepath.Join] and
    [filepath.Dir] are the path functions of the platform. *)
Module Workdir.

Record FS : Type := mkFS {
  Getwd : error + string;
  EvalSymlinks : string → error + string;
  Stat : string → option error;          (* None: the file is there *)
  Join : string → string → string;
  Dir : string → string
}.

Definition MaxSearchIterations : nat := 30.

(** The loop, with [n] iterations left, at directory [dir]: the
    directory found, or [None] when the loop ends by the bound or by the
    [break] at the root. *)
Fixpoint search (fs : FS) (n : nat) (dir : string) : option string :=
  match n with
  | O => None
  | S n' =>
      let goModPath := Join fs dir "go.mod" in
      match Stat fs goModPath with
      | None => Some dir
      | Some _ =>
          let parentDir := Dir fs dir in
          if bool_decide (parentDir = dir) then None
          else search fs n' parentDir
      end
  end.

Definition ProjectRoot (fs : FS) : string * option error :=
  match Getwd fs with
  | inl err =>
      (EmptyString, Some (wrapError "failed to get current directory: " err))
  | inr dir =>
      match EvalSymlinks fs dir with
      | inl err =>
          (EmptyString, Some (wrapError "failed to resolve symlinks: " err))
      | inr dir' =>
          match search fs MaxSearchIterations dir' with
          | Some found => (found, None)
          | None =>
              (EmptyString,
               Some (errorString "go.mod not found after 30 iterations"))
          end
      end
  end.

(** The [k]-th ancestor of [dir]. *)
Fixpoint ancestor (fs : FS) (k : nat) (dir : string) : string :=
  match k with
  | O => dir
  | S k' => ancestor fs k' (Dir fs dir)
  end.

(** [dir] holds [go.mod]. *)
Definition hasGoMod (fs : FS) (dir : string) : Prop :=
  Stat fs (Join fs dir "go.mod") = None.

(** A file system of slash-separated absolute paths in which exactly
    [/work/proj] holds [go.mod]. *)
Definition unixDir (dir : string) : string :=
  match String.rev dir with
  | EmptyString => dir
  | r =>
      (fix up (r : string) : string :=
         match r with
         | EmptyString => "/"
         | String c r' =>
             if Ascii.eqb c "/"
             then (if bool_decide (r' = EmptyString) then "/" else String.rev r')
             else up r'
         end) r
  end.

(** The test for the absence of [go.mod] in [dir]. *)
Definition lacksGoMod (fs : FS) (dir : string) : bool :=
  match Stat fs (Join fs dir "go.mod") with
  | None => false
  | Some _ => true
  end.

(** The directory [n] levels below [base]. *)
Fixpoint deepDir (n : nat) (base : string) : string :=
  match n with
  | O => base
  | S n' => deepDir n' base +:+ "/d"
  end.

Definition sampleFS (cwd : string) : FS :=
  {| Getwd := inr cwd;
     EvalSymlinks := λ d, inr d;
     Stat := λ path,
       if bool_decide (path = "/work/proj/go.mod") then None
       else Some (osError 2);
     Join := λ d f, if bool_decide (d = "/") then d +:+ f else d +:+ "/" +:+ f;
     Dir := unixDir |}.

End Workdir.

(** * Properties *)

(** ** Byte strings *)

Lemma append_cons (c : ascii) (s t : string) :
  String c s +:+ t = String c (s +:+ t).
Proof. reflexivity. Qed.

Lemma append_empty_r (s : string) : s +:+ EmptyString = s.
Proof.
  induction s as [|c s IH]; [reflexivity|].
  now rewrite append_cons, IH.
Qed.

Lemma append_assoc (s t u : string) : (s +:+ t) +:+ u = s +:+ (t +:+ u).
Proof.
  induction s as [|c s IH]; [reflexivity|].
  now rewrite !append_cons, IH.
Qed.

(** ** The capture buffer *)

Section CaptureBuffer.

Implicit Types (tsw : threadSafeWriter) (chunk : string)
               (ops : list writerOp).

Lemma Write_buffer tsw chunk :
  buffer (Write tsw chunk).1.1 = buffer tsw +:+ chunk.
Proof. reflexivity. Qed.

Lemma Write_lines_cases tsw chunk :
  lines (Write tsw chunk).1.1 =
    if bool_decide (chunk = EmptyString) then lines tsw
    else lines tsw ++ [chunk].
Proof.
  change (lines (Write tsw chunk).1.1)
    with (if bool_decide (chunk ≠ EmptyString) then lines tsw ++ [chunk]
          else lines tsw).
  destruct (decide (chunk = EmptyString)) as [Heq|Hne].
  - rewrite (bool_decide_eq_true_2 _ Heq), bool_decide_eq_false_2; auto.
  - rewrite (bool_decide_eq_false_2 _ Hne), bool_decide_eq_true_2; auto.
Qed.

Lemma Write_lines tsw chunk :
  lines (Write tsw chunk).1.1 = lines tsw ++ filter nonEmpty [chunk].
Proof.
  rewrite Write_lines_cases.
  destruct (decide (chunk = EmptyString)) as [Heq|Hne].
  - rewrite (bool_decide_eq_true_2 _ Heq), filter_cons_False, filter_nil.
    + now rewrite app_nil_r.
    + unfold nonEmpty; rewrite bool_decide_eq_false_2; auto.
  - rewrite (bool_decide_eq_false_2 _ Hne), filter_cons_True, filter_nil.
    + reflexivity.
    + unfold nonEmpty; rewrite bool_decide_eq_true_2; [exact I | exact Hne].
Qed.

Lemma applyOps_cons tsw op ops :
  applyOps tsw (op :: ops) = applyOps (applyOp tsw op) ops.
Proof. reflexivity. Qed.

Lemma applyOps_delegate tsw ops :
  delegate (applyOps tsw ops) = delegate tsw.
Proof.
  revert tsw; induction ops as [|op ops IH]; intros tsw; [reflexivity|].
  rewrite applyOps_cons, IH; now destruct op.
Qed.

(** What a history leaves in the writer, read off [sinceReset]. *)
Lemma applyOps_state tsw ops :
  let '(seen, chunks) := sinceReset ops in
  buffer (applyOps tsw ops) =
    (if seen then EmptyString else buffer tsw) +:+ concat chunks
  ∧ lines (applyOps tsw ops) =
    (if seen then [] else lines tsw) ++ filter nonEmpty chunks.
Proof.
  revert tsw; induction ops as [|op ops IH]; intros tsw.
  - cbn; now rewrite append_empty_r, app_nil_r.
  - rewrite applyOps_cons.
    destruct op as [chunk|]; cbn [sinceReset applyOp].
    + specialize (IH (Write tsw chunk).1.1).
      destruct (sinceReset ops) as [seen chunks]; destruct seen.
      * exact IH.
      * destruct IH as [IHb IHl]; rewrite IHb, IHl, Write_buffer, Write_lines.
        split.
        -- now rewrite append_assoc.
        -- rewrite <- app_assoc, <- filter_app; reflexivity.
    + specialize (IH (reset tsw)).
      destruct (sinceReset ops) as [seen chunks].
      destruct IH as [IHb IHl]; rewrite IHb, IHl.
      destruct seen; split; reflexivity.
Qed.

End CaptureBuffer.

(** C1, as stated, fails on the empty chunk: [Write] guards the append to
    [lines] by [content != ""], so an empty write adds no element. *)
Lemma Write_empty_chunk_adds_no_line :
  lines (Write (newThreadSafeWriter None) EmptyString).1.1 = []
  ∧ lines (newThreadSafeWriter None) ++ [EmptyString] = [EmptyString].
Proof. split; reflexivity. Qed.

(** C1 (amended). For every chunk and every prior state of the writer,
    [Write] extends the captured text by exactly the chunk and appends the
    chunk as one new last element of [lines] when the chunk is not empty
    (an empty chunk leaves [lines] as it is); hence after any history of
    writes and resets the text is the concatenation, in order, of the
    chunks written since the last reset, and [lines] holds the non-empty
    ones among them. *)
Theorem Write_extends_text_and_lines :
  (∀ (tsw : threadSafeWriter) (chunk : string),
      getOutput (Write tsw chunk).1.1 = getOutput tsw +:+ chunk
      ∧ lines (Write tsw chunk).1.1 =
          (if bool_decide (chunk = EmptyString) then lines tsw
           else lines tsw ++ [chunk])
      ∧ (Write tsw chunk).1.2 = (len chunk, None))
  ∧ (∀ (d : option Writer) (ops : list writerOp),
      getOutput (applyOps (newThreadSafeWriter d) ops)
        = concat (sinceReset ops).2
      ∧ sliceElems (getLines (applyOps (newThreadSafeWriter d) ops))
        = filter nonEmpty (sinceReset ops).2)
  ∧ (∀ (tsw : threadSafeWriter) (ops : list writerOp),
      getOutput (applyOps tsw ops)
        = (if (sinceReset ops).1 then EmptyString else getOutput tsw)
          +:+ concat (sinceReset ops).2).
Proof.
  split; [|split].
  - intros tsw chunk; split; [reflexivity|split; [|reflexivity]].
    apply Write_lines_cases.
  - intros d ops; unfold getOutput, getLines; cbn [sliceElems].
    pose proof (applyOps_state (newThreadSafeWriter d) ops) as H.
    destruct (sinceReset ops) as [seen chunks]; destruct H as [Hb Hl].
    rewrite Hb, Hl; cbn; now destruct seen.
  - intros tsw ops; unfold getOutput.
    pose proof (applyOps_state tsw ops) as H.
    destruct (sinceReset ops) as [seen chunks]; now destruct H as [Hb _].
Qed.

(** C7. Whatever was written before, [reset] followed at once by
    [getOutput] gives the empty string and [getLines] an empty sequence,
    and the delegate is the one the writer had. *)
Theorem reset_clears_output_keeps_delegate :
  ∀ (tsw : threadSafeWriter) (ops : list writerOp),
    getOutput (reset (applyOps tsw ops)) = EmptyString
    ∧ getLines (reset (applyOps tsw ops)) = mkSlice []
    ∧ delegate (reset (applyOps tsw ops)) = delegate (applyOps tsw ops)
    ∧ delegate (reset (applyOps tsw ops)) = delegate tsw.
Proof.
  intros tsw ops; repeat split; cbn.
  apply applyOps_delegate.
Qed.

(** ** The environment-file loop *)

Section EnvLoop.

Implicit Types (m : gmap string string) (toks : list string)
               (env : option (gmap string string)).

Lemma mergedFrom_refl m toks : mergedFrom m toks m.
Proof. split; auto. Qed.

Lemma envLine_Some m text :
  match envLine (Some m) text with
  | Returned env' => ∃ m', env' = Some m' ∧ mergedFrom m [text] m'
  | Panicked _ => parseLine text = SliceOutOfRange
  end.
Proof.
  unfold envLine.
  destruct (parseLine text) as [|key value|] eqn:Hp; [| |reflexivity].
  - exists m; split; [reflexivity | apply mergedFrom_refl].
  - destruct (m !! key) as [old|] eqn:Hk.
    + exists m; split; [reflexivity | apply mergedFrom_refl].
    + eexists; split; [reflexivity|]. split.
      * intros k v Hkv. rewrite lookup_insert_ne; [exact Hkv | congruence].
      * intros k v Hkv. destruct (decide (key = k)) as [<-|Hne].
        -- rewrite lookup_insert_eq in Hkv. inversion Hkv; subst.
           right; split; [exact Hk|]. exists text; split; [left | exact Hp].
        -- rewrite lookup_insert_ne in Hkv by exact Hne. now left.
Qed.

Lemma mergedFrom_step m text m1 toks m2 :
  mergedFrom m [text] m1 → mergedFrom m1 toks m2 →
  mergedFrom m (text :: toks) m2.
Proof.
  intros [K1 S1] [K2 S2]; split.
  - intros k v H; apply K2, K1, H.
  - intros k v H. destruct (S2 k v H) as [H1|[H1 (tok & Hin & Hb)]].
    + destruct (S1 k v H1) as [H0|[H0 (tok & Hin & Hb)]]; [now left|].
      right; split; [exact H0|]. exists tok; split; [|exact Hb].
      apply list_elem_of_singleton in Hin; subst; left.
    + destruct (m !! k) as [v0|] eqn:Hk.
      * apply K1 in Hk; congruence.
      * right; split; [reflexivity|]. exists tok; split; [now right | exact Hb].
Qed.

(** The loop never loses the map, keeps every entry it started with and
    adds only what lines of the file bind. *)
Lemma envLoop_Some m toks :
  ∃ m', (envLoop (Some m) toks).2 = Some m' ∧ mergedFrom m toks m'.
Proof.
  revert m; induction toks as [|text toks IH]; intros m; cbn [envLoop].
  - exists m; split; [reflexivity | apply mergedFrom_refl].
  - pose proof (envLine_Some m text) as Hl.
    destruct (envLine (Some m) text) as [env'|msg].
    + destruct Hl as (m1 & -> & H1). destruct (IH m1) as (m2 & E2 & H2).
      exists m2; split; [exact E2 | eapply mergedFrom_step; eassumption].
    + exists m; split; [reflexivity | apply mergedFrom_refl].
Qed.

End EnvLoop.

(** ** Frame properties of the stages of [Run] *)

Section Frames.

Implicit Types (p q : Process) (w : World) (st : pumped).

Lemma sameButWriter_refl p : sameButWriter p p.
Proof. repeat split. Qed.

Lemma sameButWriter_trans p q r :
  sameButWriter p q → sameButWriter q r → sameButWriter p r.
Proof.
  unfold sameButWriter; intros (?&?&?&?&?&?&?) (?&?&?&?&?&?&?).
  repeat split; congruence.
Qed.

Lemma sameButWriter_set p tsw : sameButWriter p (setSafeWriter tsw p).
Proof. repeat split. Qed.

Lemma handleLineWrite_frame p line :
  sameButWriter p (handleLineWrite p line).1.
Proof.
  unfold handleLineWrite. destruct (safeWriter p) as [tsw|]; cbn.
  - apply sameButWriter_set.
  - apply sameButWriter_refl.
Qed.

Lemma handleLineWrite_events p line :
  Forall isDelegateWrite (handleLineWrite p line).2.
Proof.
  unfold handleLineWrite, Write. destruct (safeWriter p) as [tsw|]; cbn.
  - destruct (delegate tsw); repeat constructor.
  - constructor.
Qed.

Lemma pumpStepRun_frame st step :
  sameButWriter (pProc st) (pProc (pumpStepRun st step))
  ∧ ∃ evs, pEvents (pumpStepRun st step) = pEvents st ++ evs
           ∧ Forall isDelegateWrite evs.
Proof.
  destruct step as [line|]; unfold pumpStepRun.
  - pose proof (handleLineWrite_frame (pProc st) line) as Hf.
    pose proof (handleLineWrite_events (pProc st) line) as He.
    destruct (handleLineWrite (pProc st) line) as [p' evs]; cbn in *.
    split; [exact Hf | exists evs; auto].
  - destruct (handleLineCheck (pProc st) (pChan st)) as [ch' outs]; cbn.
    split; [apply sameButWriter_refl|]. exists []; split.
    + now rewrite app_nil_r.
    + constructor.
Qed.

Lemma pump_frame st steps :
  sameButWriter (pProc st) (pProc (pump st steps))
  ∧ ∃ evs, pEvents (pump st steps) = pEvents st ++ evs
           ∧ Forall isDelegateWrite evs.
Proof.
  revert st; induction steps as [|step steps IH]; intros st.
  - split; [apply sameButWriter_refl|]. exists []; split.
    + cbn. now rewrite app_nil_r.
    + constructor.
  - change (pump st (step :: steps)) with (pump (pumpStepRun st step) steps).
    destruct (pumpStepRun_frame st step) as (F1 & evs1 & E1 & D1).
    destruct (IH (pumpStepRun st step)) as (F2 & evs2 & E2 & D2).
    split; [eapply sameButWriter_trans; eassumption|].
    exists (evs1 ++ evs2); split.
    + now rewrite E2, E1, <- app_assoc.
    + apply Forall_app; auto.
Qed.

(** After a successful start [Run] returns [nil] with the process
    running, its configuration untouched, and one start event followed
    by delegate writes only. *)
Lemma afterStart_spec w p c pid :
  let r := afterStart w p c pid in
  let c' := mkCmd (Args c) (CmdEnv c) (Dir c) (Setpgid c) (Some pid) in
  runRet r = Returned None
  ∧ sameButWriter (setRunning true (setCmd (Some c') p)) (runProc r)
  ∧ ∃ evs, runEvents r = EvStart c' :: evs ∧ Forall isDelegateWrite evs.
Proof.
  cbv zeta; unfold afterStart.
  set (c' := mkCmd _ _ _ _ _). set (p5 := setRunning true _).
  destruct (pump_frame (mkPumped p5 false [EvStart c'] []) (pumpedEarly w))
    as (F6 & evs6 & E6 & D6).
  set (st6 := pump _ (pumpedEarly w)) in *. cbn in F6, E6.
  destruct (WaitingFor (pProc st6)) as [ready|].
  - pose proof (handleLineWrite_frame (pProc st6) runnerMessage) as F7.
    pose proof (handleLineWrite_events (pProc st6) runnerMessage) as D7.
    destruct (handleLineWrite (pProc st6) runnerMessage) as [p7 evs7].
    cbn in F7, D7.
    destruct (pump_frame
                (mkPumped p7 (pChan st6) (pEvents st6 ++ evs7) (pChecked st6))
                (pumpedWaiting w)) as (F8 & evs8 & E8 & D8).
    cbn in F8, E8. cbn [runRet runProc runEvents].
    split; [reflexivity|]. split.
    + eapply sameButWriter_trans; [exact F6|].
      eapply sameButWriter_trans; eassumption.
    + exists (evs6 ++ evs7 ++ evs8); split.
      * rewrite E8, E6. cbn. now rewrite <- !app_assoc.
      * apply Forall_app; split; [exact D6|].
        apply Forall_app; split; [exact D7 | exact D8].
  - cbn [runRet runProc runEvents]. split; [reflexivity|].
    split; [exact F6|]. exists evs6; split; [exact E6 | exact D6].
Qed.

End Frames.

(** ** The stages of [Run] *)

Section RunStages.

Implicit Types (p : Process) (w : World) (m : gmap string string).

Lemma initEnv_Env p : Env (initEnv p) = Some (default ∅ (Env p)).
Proof. unfold initEnv; destruct (Env p) eqn:E; [now rewrite E | reflexivity]. Qed.

Lemma initEnv_frame p :
  File (initEnv p) = File p ∧ EnvFile (initEnv p) = EnvFile p
  ∧ LogStream (initEnv p) = LogStream p
  ∧ WaitingFor (initEnv p) = WaitingFor p ∧ cmd (initEnv p) = cmd p
  ∧ running (initEnv p) = running p
  ∧ safeWriter (initEnv p) = safeWriter p.
Proof. unfold initEnv; destruct (Env p); repeat split. Qed.

(** Loading changes nothing but [Env], and [Env] only by merging. *)
Lemma loadEnv_spec w p m :
  Env p = Some m →
  ∃ m', (loadEnv w p).1 = setEnv (Some m') p
        ∧ mergedFrom m (fileTokens w (EnvFile p)) m'.
Proof.
  intros Hm. unfold loadEnv, loadEnvFile, fileTokens.
  assert (Hid : p = setEnv (Some m) p) by (destruct p; cbn in *; now subst).
  destruct (bool_decide (EnvFile p ≠ EmptyString)).
  - destruct (osOpen w (EnvFile p)) as [err|content rerr].
    + exists m; split; [exact Hid | apply mergedFrom_refl].
    + destruct (Bufio.scanLines content) as [toks long]; cbn [fst].
      rewrite Hm. destruct (envLoop_Some m toks) as (m' & E & M).
      exists m'. destruct (envLoop (Some m) toks) as [[ret|msg] env'];
        cbn in E; subst env'; split; auto.
  - exists m; split; [exact Hid | apply mergedFrom_refl].
Qed.

(** What [spawn] leaves, by the answer of the operating system. *)
Lemma spawn_spec w p :
  let r := spawn w p in
  let p3 := setSafeWriter (Some (newThreadSafeWriter (LogStream p))) p in
  let c := buildCmd w p3 in
  match osStart w with
  | Started pid =>
      let c' := mkCmd (Args c) (CmdEnv c) (Dir c) (Setpgid c) (Some pid) in
      runRet r = Returned None
      ∧ sameButWriter (setRunning true (setCmd (Some c') p)) (runProc r)
      ∧ ∃ evs, runEvents r = EvStart c' :: evs ∧ Forall isDelegateWrite evs
  | StdoutPipeFails err | StderrPipeFails err | StartFails err =>
      r = runDone (setCmd (Some c) p3) (Returned (Some err))
  end.
Proof.
  cbv zeta; unfold spawn. destruct (osStart w) as [err|err|err|pid];
    try reflexivity.
  set (p3 := setSafeWriter _ p). set (c := buildCmd w p3).
  destruct (afterStart_spec w (setCmd (Some c) p3) c pid) as (R & F & E).
  split; [exact R|]. split; [|exact E].
  eapply sameButWriter_trans; [|exact F]. repeat split.
Qed.

Lemma Run_running w p :
  running p = true → Run w p = runDone p (Returned None).
Proof. intros H; unfold Run; now rewrite H. Qed.

Lemma Run_no_file w p :
  running p = false → File p = EmptyString →
  Run w p = runDone p (Returned (Some (errorString "no file specified"))).
Proof.
  intros Hr Hf; unfold Run; rewrite Hr.
  now rewrite (bool_decide_eq_true_2 _ Hf).
Qed.

(** Past the two guards, [Run] is the loader followed by [spawn]. *)
Lemma Run_proceeds w p :
  running p = false → File p ≠ EmptyString →
  Run w p =
    match (loadEnv w (initEnv p)).2 with
    | Panicked msg => runDone (loadEnv w (initEnv p)).1 (Panicked msg)
    | Returned (Some err) =>
        runDone (loadEnv w (initEnv p)).1
          (Returned (Some (wrapError "failed to load env file: " err)))
    | Returned None => spawn w (loadEnv w (initEnv p)).1
    end.
Proof.
  intros Hr Hf; unfold Run; rewrite Hr.
  rewrite (bool_decide_eq_false_2 _ Hf).
  now destruct (loadEnv w (initEnv p)) as [p2 loaded].
Qed.

Lemma spawn_Env w p : Env (runProc (spawn w p)) = Env p.
Proof.
  pose proof (spawn_spec w p) as H; cbv zeta in H.
  destruct (osStart w) as [err|err|err|pid]; try (rewrite H; reflexivity).
  destruct H as (_ & F & _). destruct F as (_ & F & _). now rewrite <- F.
Qed.

(** The [Env] that a call of [Run] leaves. *)
Lemma Run_Env w p :
  Env (runProc (Run w p)) =
    if running p then Env p
    else if bool_decide (File p = EmptyString) then Env p
    else Env (loadEnv w (initEnv p)).1.
Proof.
  destruct (running p) eqn:Hr; [now rewrite Run_running|].
  case_bool_decide as Hf; [now rewrite Run_no_file|].
  rewrite Run_proceeds by assumption.
  destruct (loadEnv w (initEnv p)).2 as [[err|]|msg]; try reflexivity.
  apply spawn_Env.
Qed.

(** Every call of [Run] merges: it keeps the entries of [Env] and adds
    only bindings of the environment file. *)
Lemma Run_merges w p :
  ∃ m', (Env (runProc (Run w p)) = Some m' ∨
         (Env (runProc (Run w p)) = None ∧ Env p = None ∧ m' = ∅))
        ∧ mergedFrom (default ∅ (Env p)) (fileTokens w (EnvFile p)) m'.
Proof.
  rewrite Run_Env.
  assert (Hstay : ∃ m', (Env p = Some m' ∨ (Env p = None ∧ Env p = None ∧ m' = ∅))
                  ∧ mergedFrom (default ∅ (Env p))
                               (fileTokens w (EnvFile p)) m').
  { exists (default ∅ (Env p)); split; [|apply mergedFrom_refl].
    destruct (Env p); auto. }
  destruct (running p); [exact Hstay|].
  case_bool_decide; [exact Hstay|].
  destruct (loadEnv_spec w (initEnv p) _ (initEnv_Env p)) as (m' & E & M).
  exists m'; split; [left; now rewrite E|].
  destruct (initEnv_frame p) as (_ & -> & _) in M. exact M.
Qed.

End RunStages.

(** ** The paths through [Run] *)

Lemma Run_path (w : World) (p : Process) : RunPath w p (Run w p).
Proof.
  destruct (running p) eqn:Hr.
  { rewrite Run_running by exact Hr. now constructor. }
  destruct (decide (File p = EmptyString)) as [Hf|Hf].
  { rewrite Run_no_file by assumption. now constructor. }
  rewrite Run_proceeds by assumption.
  destruct (loadEnv w (initEnv p)).2 as [[cause|]|msg] eqn:Hl.
  - now apply PathLoadFails.
  - pose proof (spawn_spec w (loadEnv w (initEnv p)).1) as Hs.
    cbv zeta in Hs. destruct (osStart w) as [err|err|err|pid] eqn:Hos.
    1-3: rewrite Hs; apply PathStartFails; auto; now rewrite Hos.
    destruct Hs as (R & F & E).
    apply PathStarted with (pid := pid); auto.
  - now apply PathLoadPanics.
Qed.

(** A start event of [Run] carries the command with the merged
    environment appended to the inherited one. *)
Lemma Run_start_event (w : World) (p : Process) (c : Cmd) :
  EvStart c ∈ runEvents (Run w p) →
  CmdEnv c = osEnviron w ++ envPairs (Env (runProc (Run w p))).
Proof.
  destruct (Run_path w p) as [| | | | |pid r ? ? ? ? R F (evs & E & D)];
    intros Hin; try (cbn in Hin; now apply elem_of_nil in Hin).
  rewrite E in Hin. apply elem_of_cons in Hin as [Heq|Hin].
  - inversion Heq; subst c. destruct F as (_ & F & _). rewrite <- F.
    reflexivity.
  - rewrite Forall_forall in D. apply D in Hin. contradiction.
Qed.

Lemma envPairs_lookup (m : gmap string string) (k v : string) :
  m !! k = Some v → envEntry k v ∈ envPairs (Some m).
Proof.
  intros H. unfold envPairs. apply list_elem_of_fmap.
  exists (k, v); split; [reflexivity|]. now apply elem_of_map_to_list.
Qed.

(** C2. Whatever the environment file holds, after [Run] every key of the
    explicit mapping has its explicit value; an entry that was not
    explicit is bound by a line of the file and its key was absent from
    the explicit mapping; and the command that is started gets the
    explicit entries. With [PORT] explicitly 1010 and [PORT=9999] in the
    file, [PORT] is 1010. *)
Theorem explicit_env_takes_precedence :
  (∀ (w : World) (p : Process),
     let explicit := default ∅ (Env p) in
     let effective := default ∅ (Env (runProc (Run w p))) in
     (∀ k v, explicit !! k = Some v → effective !! k = Some v)
     ∧ (∀ k v, effective !! k = Some v →
          explicit !! k = Some v
          ∨ (explicit !! k = None
             ∧ ∃ tok, tok ∈ fileTokens w (EnvFile p)
                      ∧ parseLine tok = Binding k v))
     ∧ (∀ c k v, EvStart c ∈ runEvents (Run w p) →
          explicit !! k = Some v → envEntry k v ∈ CmdEnv c))
  ∧ Env (runProc (Run portWorld portProcess)) = Some {[ "PORT" := "1010" ]}
  ∧ parseLine "PORT=9999" = Binding "PORT" "9999".
Proof.
  split; [|split; [|vm_compute; reflexivity]].
  - intros w p explicit effective.
    destruct (Run_merges w p) as (m' & Hm' & K & S).
    assert (Heff : effective = m').
    { subst effective. destruct Hm' as [->|(-> & _ & ->)]; reflexivity. }
    rewrite Heff. split; [exact K|]. split; [exact S|].
    intros c k v Hev Hk. pose proof (Run_start_event w p c Hev) as Hc.
    rewrite Hc.
    apply elem_of_app; right.
    destruct Hm' as [E|(E & _ & ->)].
    + rewrite E. apply envPairs_lookup, K, Hk.
    + apply K in Hk. now rewrite lookup_empty in Hk.
  - vm_compute. reflexivity.
Qed.

(** ** The loader's quote handling against the specification's *)

Section Quotes.
Import EnvFileSpec.

Implicit Types (v rest : string) (a c q : ascii).

Lemma HasPrefix_empty v : HasPrefix v EmptyString = true.
Proof. now destruct v. Qed.

Lemma HasPrefix_one q v :
  HasPrefix v (String q EmptyString) =
    match v with
    | String a _ => Ascii.eqb q a
    | EmptyString => false
    end.
Proof.
  destruct v as [|a v]; cbn; [reflexivity|].
  now rewrite HasPrefix_empty, andb_true_r.
Qed.

Lemma strDrop_last a rest :
  strDrop (String.length rest) (String a rest)
  = String (lastByte a rest) EmptyString.
Proof.
  revert a; induction rest as [|b r IH]; intros a; [reflexivity|].
  cbn [String.length strDrop]. rewrite IH. unfold lastByte.
  cbn [unsnoc]. now destruct (unsnoc r) as [[i l]|].
Qed.

Lemma strTake_init b r :
  strTake (String.length r) (String b r)
  = match unsnoc r with
    | Some (i, _) => String b i
    | None => EmptyString
    end.
Proof.
  revert b; induction r as [|b' r IH]; intros b; [reflexivity|].
  cbn [String.length strTake]. rewrite IH. cbn [unsnoc].
  now destruct (unsnoc r) as [[i l]|].
Qed.

Lemma HasSuffix_one c a rest :
  HasSuffix (String a rest) (String c EmptyString)
  = Ascii.eqb (lastByte a rest) c.
Proof.
  unfold HasSuffix, len. cbn [String.length].
  replace (Z.to_nat (Z.of_nat (S (String.length rest)) - Z.of_nat 1))
    with (String.length rest) by lia.
  rewrite strDrop_last.
  replace (Z.of_nat 1 <=? Z.of_nat (S (String.length rest))) with true
    by (symmetry; apply Z.leb_le; lia).
  cbn [andb]. destruct (Ascii.eqb_spec (lastByte a rest) c) as [->|Hne].
  - now apply bool_decide_eq_true_2.
  - apply bool_decide_eq_false_2. intros H; inversion H; contradiction.
Qed.

Lemma sliceStr_inner a rest :
  sliceStr (String a rest) 1 (len (String a rest) - 1)
  = match unsnoc rest with
    | Some (inner, _) => Some inner
    | None => None
    end.
Proof.
  unfold sliceStr, len. destruct rest as [|b r]; [reflexivity|].
  cbn [String.length].
  replace (Z.of_nat (S (S (String.length r))) - 1 - 1)
    with (Z.of_nat (String.length r)) by lia.
  rewrite Nat2Z.id.
  replace (0 <=? 1) with true by reflexivity.
  replace (1 <=? Z.of_nat (S (S (String.length r))) - 1) with true
    by (symmetry; apply Z.leb_le; lia).
  replace (Z.of_nat (S (S (String.length r))) - 1
           <=? Z.of_nat (S (S (String.length r)))) with true
    by (symmetry; apply Z.leb_le; lia).
  cbn [andb]. change (Z.to_nat 1) with 1%nat. cbn [strDrop].
  rewrite strTake_init. cbn [unsnoc].
  now destruct (unsnoc r) as [[i l]|].
Qed.

(** The quote test, read on the first and the last byte. *)
Lemma quoted_cons a rest :
  quoted (String a rest)
  = isQuote a && Ascii.eqb a (lastByte a rest).
Proof.
  unfold quoted, dquote, squote, isQuote.
  rewrite !HasPrefix_one, !HasSuffix_one.
  rewrite (Ascii.eqb_sym (lastByte a rest) "034").
  rewrite (Ascii.eqb_sym (lastByte a rest) "039").
  rewrite (Ascii.eqb_sym a "034"), (Ascii.eqb_sym a "039").
  destruct (Ascii.eqb_spec "034" a) as [H1|H1].
  - rewrite <- H1. cbn. now rewrite orb_false_r.
  - destruct (Ascii.eqb_spec "039" a) as [H2|H2].
    + rewrite <- H2. reflexivity.
    + reflexivity.
Qed.

Lemma isQuote_lone a :
  isQuote a = isLoneQuote (String a EmptyString).
Proof.
  unfold isQuote, isLoneQuote, dquote, squote.
  destruct (Ascii.eqb_spec a "034") as [->|H1].
  { symmetry; apply bool_decide_eq_true_2; now left. }
  destruct (Ascii.eqb_spec a "039") as [->|H2].
  { symmetry; apply bool_decide_eq_true_2; now right. }
  symmetry; apply bool_decide_eq_false_2. intros [H|H]; inversion H; auto.
Qed.

Lemma isLoneQuote_long a b r : isLoneQuote (String a (String b r)) = false.
Proof. apply bool_decide_eq_false_2. intros [H|H]; inversion H. Qed.

(** Lines 254-258 against the specification's stripping: they agree
    unless the value is one quote character, where the slice panics. *)
Lemma strip_agree v :
  (if quoted v then sliceStr v 1 (len v - 1) else Some v)
  = if isLoneQuote v then None else Some (stripQuotes v).
Proof.
  destruct v as [|a rest]; [reflexivity|].
  rewrite quoted_cons, sliceStr_inner. unfold stripQuotes, lastByte.
  destruct rest as [|b r].
  - cbn [unsnoc]. rewrite Ascii.eqb_refl, andb_true_r, isQuote_lone.
    now destruct (isLoneQuote _).
  - rewrite isLoneQuote_long.
    destruct (unsnoc (String b r)) as [[inner l]|] eqn:Hu.
    + now destruct (isQuote a && Ascii.eqb a l).
    + cbn in Hu. now destruct (unsnoc r) as [[i l]|].
Qed.

End Quotes.

(** ** The loader against the specification's parser *)

Section LoaderRefinement.
Import EnvFileSpec Bufio.

Implicit Types (m : gmap string string) (line : string)
               (toks pieces : list string).

Lemma parseLine_spec line :
  parseLine line =
    match rawEntry line with
    | None => Skip
    | Some (k, v) =>
        if isLoneQuote v then SliceOutOfRange else Binding k (stripQuotes v)
    end.
Proof.
  unfold parseLine, rawEntry, SplitN2.
  destruct (bool_decide (TrimSpace line = EmptyString)); [reflexivity|].
  cbn [orb]. destruct (HasPrefix (TrimSpace line) "#"); [reflexivity|].
  destruct (cut "=" (TrimSpace line)) as [[k v]|]; [|reflexivity].
  pose proof (strip_agree (TrimSpace v)) as H.
  destruct (quoted (TrimSpace v)).
  - rewrite H. now destruct (isLoneQuote (TrimSpace v)).
  - destruct (isLoneQuote (TrimSpace v)); congruence.
Qed.

Lemma loneQuote_b line : loneQuote line ↔ loneQuoteb line = true.
Proof.
  unfold loneQuote, loneQuoteb, isLoneQuote. split.
  - intros (k & v & -> & H). now apply bool_decide_eq_true_2.
  - destruct (rawEntry line) as [[k v]|]; [|discriminate].
    intros H. exists k, v. split; [reflexivity|].
    now apply bool_decide_eq_true_1 in H.
Qed.

Lemma envLine_lone_quote env line :
  loneQuote line → envLine env line = Panicked "slice bounds out of range".
Proof.
  intros H. apply loneQuote_b in H. unfold envLine, loneQuoteb in *.
  rewrite parseLine_spec. destruct (rawEntry line) as [[k v]|]; [|discriminate].
  now rewrite H.
Qed.

Lemma envLine_merge m line :
  ¬ loneQuote line → envLine (Some m) line = Returned (Some (merge m line)).
Proof.
  intros H. unfold envLine, merge, entry. rewrite parseLine_spec.
  destruct (rawEntry line) as [[k v]|] eqn:E; [|reflexivity].
  destruct (isLoneQuote v) eqn:L.
  - exfalso; apply H, loneQuote_b. unfold loneQuoteb. now rewrite E.
  - now destruct (m !! k).
Qed.

Lemma envLoop_fold m toks :
  (∀ t, t ∈ toks → ¬ loneQuote t) →
  envLoop (Some m) toks
  = (Returned (Some (foldl merge m toks)), Some (foldl merge m toks)).
Proof.
  revert m; induction toks as [|t toks IH]; intros m H; [reflexivity|].
  cbn [envLoop foldl]. rewrite envLine_merge by (apply H; left).
  apply IH. intros t' Ht'. apply H. now right.
Qed.

(** With every piece fitting, the scanner delivers the lines of the
    text, but for a last empty piece, which no parser counts. *)
Lemma scanPieces_fit pieces :
  Forall (λ piece, fits piece = true) pieces →
  ∃ toks, scanPieces pieces = (toks, false)
          ∧ toks ⊆ dropCR <$> pieces
          ∧ ∀ m, foldl merge m toks = foldl merge m (dropCR <$> pieces).
Proof.
  induction pieces as [|piece rest IH]; intros Hfit.
  - exists []; repeat split. intros x Hx; exact Hx.
  - apply Forall_cons in Hfit as [Hp Hrest]. destruct rest as [|r rs].
    + cbn [scanPieces]. case_bool_decide as He.
      * subst piece. exists []; split; [reflexivity|]. split.
        -- intros x Hx. now apply elem_of_nil in Hx.
        -- intros m. reflexivity.
      * rewrite Hp. exists [dropCR piece]; repeat split.
        intros x Hx; exact Hx.
    + destruct (IH Hrest) as (toks & E & Sub & F).
      exists (dropCR piece :: toks). split; [|split].
      * change (scanPieces (piece :: r :: rs))
          with (if fits piece
                then let '(toks, long) := scanPieces (r :: rs) in
                     (dropCR piece :: toks, long)
                else ([], true)).
        now rewrite Hp, E.
      * intros x Hx. apply elem_of_cons in Hx as [->|Hx]; [left|].
        right. now apply Sub.
      * intros m. cbn [foldl fmap list_fmap]. apply F.
Qed.

Lemma linesFit_check content :
  forallb fits (splitLF content) = true → linesFit content.
Proof.
  unfold linesFit. rewrite forallb_forall, Forall_forall.
  intros H x Hx. apply H. now apply list_elem_of_In.
Qed.

Lemma noLoneQuote_check content :
  forallb (λ l, negb (loneQuoteb l)) (textLines content) = true →
  ∀ line, line ∈ textLines content → ¬ loneQuote line.
Proof.
  rewrite forallb_forall. intros H line Hin Hl.
  apply loneQuote_b in Hl. apply list_elem_of_In, H in Hin.
  now rewrite Hl in Hin.
Qed.

End LoaderRefinement.

(** C6, as stated, fails on a text with a line that a default scanner
    does not take: the specification's parser binds [K], while
    [loadEnvFile] stops at that line, binds nothing and returns
    [bufio.ErrTooLong]. *)
Lemma loadEnvFile_overlong_line :
  (loadEnvFile (envFileWorld longLineFile) envFileProcess).2
    = Returned (Some ErrTooLong)
  ∧ Env (loadEnvFile (envFileWorld longLineFile) envFileProcess).1 = Some ∅
  ∧ EnvFileSpec.parse longLineFile
    = {[ "K" := strRepeat (Z.to_nat Bufio.MaxScanTokenSize) "v" ]}.
Proof.
  split; [vm_compute; reflexivity|]. split; [vm_compute; reflexivity|].
  apply (bool_decide_eq_true_1 _). vm_compute. reflexivity.
Qed.

(** C6 (amended). For every text of the environment file whose lines each
    fit the scanner's buffer and in which no line has a single quote
    character as its whole value, [loadEnvFile] returns what reading the
    file returned and leaves in [Env] exactly the mapping that the
    specification's parser makes of the text on top of the entries [Env]
    had: blank lines and lines starting with [#] ignored, the others
    split on the first [=], lines without one skipped, key and value
    trimmed, a value wrapped in matching quotes stripped of them; of two
    lines with one key the first counts. *)
Theorem loadEnvFile_parses_env_file :
  ∀ (w : World) (p : Process) (m : gmap string string)
    (content : string) (readErr : option error),
    osOpen w (EnvFile p) = Opened content readErr →
    Env p = Some m →
    EnvFileSpec.linesFit content →
    (∀ line, line ∈ EnvFileSpec.textLines content →
             ¬ EnvFileSpec.loneQuote line) →
    loadEnvFile w p
    = (setEnv (Some (EnvFileSpec.parseInto m content)) p, Returned readErr).
Proof.
  intros w p m content readErr Hopen Hm Hfit Hq.
  unfold loadEnvFile, Bufio.scanLines. rewrite Hopen, Hm.
  destruct (scanPieces_fit _ Hfit) as (toks & E & Sub & F).
  rewrite E. rewrite envLoop_fold.
  - unfold EnvFileSpec.parseInto, EnvFileSpec.textLines. now rewrite F.
  - intros t Ht. apply Hq, Sub, Ht.
Qed.

(** The loader on the sample file: comment, blank line, quoted value,
    [=] inside a value, a repeated key and a line without [=]. *)
Lemma loadEnvFile_parses_sample :
  loadEnvFile (envFileWorld sampleFile) envFileProcess
  = (setEnv (Some (EnvFileSpec.parseInto ∅ sampleFile)) envFileProcess,
     Returned None)
  ∧ EnvFileSpec.parseInto ∅ sampleFile
    = {[ "NAME" := "goat"; "URL" := "http://h/?a=b" ]}.
Proof.
  split.
  - apply (loadEnvFile_parses_env_file
             (envFileWorld sampleFile) envFileProcess ∅ sampleFile None).
    + reflexivity.
    + reflexivity.
    + apply linesFit_check. vm_compute. reflexivity.
    + apply noLoneQuote_check. vm_compute. reflexivity.
  - vm_compute. reflexivity.
Defined.

(** C9. On an environment file with the line [KEY=] followed by one
    double quote, the slice expression of the quote-stripping step is out
    of range: [loadEnvFile] panics, and so does [Run]. The same holds for
    every line whose trimmed value is a single quote character. *)
Theorem loadEnvFile_lone_quote_panics :
  (loadEnvFile (envFileWorld loneQuoteFile) envFileProcess).2
    = Panicked "slice bounds out of range"
  ∧ runRet (Run (envFileWorld loneQuoteFile) envFileProcess)
    = Panicked "slice bounds out of range"
  ∧ quoted dquote = true
  ∧ sliceStr dquote 1 (len dquote - 1) = None.
Proof. vm_compute. repeat split. Qed.

(** ** Errors of [Run] *)

Lemma loadEnv_frame (w : World) (p : Process) :
  ∃ env', (loadEnv w (initEnv p)).1 = setEnv env' p.
Proof.
  destruct (loadEnv_spec w (initEnv p) _ (initEnv_Env p)) as (m' & E & _).
  exists (Some m'). rewrite E. unfold initEnv. now destruct (Env p).
Qed.

Lemma loadEnv_open_fails (w : World) (p : Process) (cause : error) :
  EnvFile p ≠ EmptyString → osOpen w (EnvFile p) = OpenFails cause →
  (loadEnv w (initEnv p)).2 = Returned (Some cause).
Proof.
  intros Hne Hopen. unfold loadEnv, loadEnvFile.
  destruct (initEnv_frame p) as (_ & -> & _).
  rewrite (bool_decide_eq_true_2 _ Hne). now rewrite Hopen.
Qed.

(** C3, as stated, fails when the command cannot be started: [File] is
    set and no environment file is named, so no static precondition
    fails, and yet [Run] returns the error of [cmd.Start]. *)
Lemma Run_returns_start_error :
  runRet (Run startFailsWorld freshProcess) = Returned (Some (osError 2))
  ∧ File freshProcess = "main.go"
  ∧ EnvFile freshProcess = EmptyString
  ∧ running (runProc (Run startFailsWorld freshProcess)) = false.
Proof. vm_compute. repeat split. Qed.

(** ** Idempotence of [Run] and [Stop] *)

Lemma Run_nil_running (w : World) (p : Process) :
  runRet (Run w p) = Returned None → running (runProc (Run w p)) = true.
Proof.
  destruct (Run_path w p)
    as [Hr|Hr Hf|msg Hr Hf Hl|cause Hr Hf Hl|err Hr Hf Hl Hs
        |pid r Hr Hf Hl Hs R F E]; cbn [runRet runDone runProc];
    intros H; try discriminate.
  - exact Hr.
  - destruct F as (_ & _ & _ & _ & _ & _ & F). now rewrite <- F.
Qed.

(** C5. While [running] is true [Run] returns [nil], leaves the process
    as it is and does nothing outside, so a second [Run] after one that
    returned [nil] spawns nothing; [Stop] on a process that is not running
    or has no command leaves it as it is and kills nothing, so a second
    [Stop] is a no-op. *)
Theorem Run_and_Stop_idempotent :
  ∀ (w w' : World) (p : Process),
    (running p = true → Run w p = runDone p (Returned None))
    ∧ (running p = false ∨ cmd p = None → Stop w p = (p, []))
    ∧ (runRet (Run w p) = Returned None →
         Run w' (runProc (Run w p))
         = runDone (runProc (Run w p)) (Returned None))
    ∧ Stop w' (Stop w p).1 = ((Stop w p).1, []).
Proof.
  intros w w' p. split; [|split; [|split]].
  - apply Run_running.
  - intros [H|H]; unfold Stop; [now rewrite H|].
    rewrite H. now destruct (negb (running p)).
  - intros H. apply Run_running, Run_nil_running, H.
  - unfold Stop at 2 3. destruct (running p) eqn:Hr; cbn [negb].
    + destruct (cmd p) as [c|] eqn:Hc; cbn [fst].
      * reflexivity.
      * unfold Stop. now rewrite Hr, Hc.
    + cbn [fst]. unfold Stop. now rewrite Hr.
Qed.

(** A second [Run] on the override fixture, and [Stop] on a process that
    was never run. *)
Lemma Run_twice_spawns_once :
  Run portWorld (runProc (Run portWorld portProcess))
  = runDone (runProc (Run portWorld portProcess)) (Returned None)
  ∧ Stop portWorld freshProcess = (freshProcess, []).
Proof.
  split.
  - apply (proj1 (proj2 (proj2
             (Run_and_Stop_idempotent portWorld portWorld portProcess)))).
    vm_compute. reflexivity.
  - apply (proj1 (proj2
             (Run_and_Stop_idempotent portWorld portWorld freshProcess))).
    left. reflexivity.
Defined.

(** ** Accessors before the first run *)

(** C8. While [safeWriter] is nil every accessor returns at once with a
    neutral value: [GetOutput] the empty string, [GetLines] the nil
    slice, [ContainsOutput] and [WaitForOutput] false for every argument,
    and [ResetOutput] changes nothing. *)
Theorem accessors_nil_safe :
  ∀ (p : Process),
    safeWriter p = None →
    GetOutput p = EmptyString
    ∧ GetLines p = nilSlice
    ∧ sliceElems (GetLines p) = []
    ∧ (∀ text, ContainsOutput p text = false)
    ∧ (∀ lag observe text timeout,
         WaitForOutput p lag observe text timeout = false)
    ∧ ResetOutput p = p.
Proof.
  intros p H.
  unfold GetOutput, GetLines, ContainsOutput, WaitForOutput, ResetOutput.
  rewrite H. repeat split.
Qed.

(** The accessors on a process that was never run. *)
Lemma accessors_of_fresh_process :
  GetOutput freshProcess = EmptyString
  ∧ GetLines freshProcess = nilSlice
  ∧ sliceElems (GetLines freshProcess) = []
  ∧ (∀ text, ContainsOutput freshProcess text = false)
  ∧ (∀ lag observe text timeout,
       WaitForOutput freshProcess lag observe text timeout = false)
  ∧ ResetOutput freshProcess = freshProcess.
Proof. apply (accessors_nil_safe freshProcess). reflexivity. Defined.

(** ** The readiness wait *)

Section Readiness.

Implicit Types (st : pumped) (ready : string → bool).

Lemma existsb_false_Forall ready (outs : list string) :
  existsb ready outs = false ↔ Forall (λ out, ready out = false) outs.
Proof.
  induction outs as [|out outs IH]; cbn [existsb].
  - split; [constructor | reflexivity].
  - rewrite orb_false_iff, IH, Forall_cons. reflexivity.
Qed.

Lemma existsb_true_Exists ready (outs : list string) :
  existsb ready outs = true ↔ Exists (λ out, ready out = true) outs.
Proof.
  induction outs as [|out outs IH]; cbn [existsb].
  - split; [discriminate | intros H; inversion H].
  - rewrite orb_true_iff, IH, Exists_cons. reflexivity.
Qed.

Lemma pumpStepRun_chan st step ready :
  WaitingFor (pProc st) = Some ready →
  ∃ outs, pChecked (pumpStepRun st step) = pChecked st ++ outs
          ∧ pChan (pumpStepRun st step) = pChan st || existsb ready outs.
Proof.
  intros Hw. destruct step as [line|]; unfold pumpStepRun.
  - destruct (handleLineWrite (pProc st) line) as [p' evs]; cbn.
    exists []. now rewrite app_nil_r, orb_false_r.
  - unfold handleLineCheck. rewrite Hw.
    destruct (safeWriter (pProc st)) as [tsw|]; cbn.
    + exists [getOutput tsw]; split; [reflexivity|]. cbn.
      now destruct (ready (getOutput tsw)), (pChan st).
    + exists []. now rewrite app_nil_r, orb_false_r.
Qed.

(** The channel holds a value after the pumps' steps exactly when it did
    before or one of their tests of the predicate succeeded. *)
Lemma pump_chan st steps ready :
  WaitingFor (pProc st) = Some ready →
  ∃ outs, pChecked (pump st steps) = pChecked st ++ outs
          ∧ pChan (pump st steps) = pChan st || existsb ready outs.
Proof.
  revert st; induction steps as [|step steps IH]; intros st Hw.
  - exists []. cbn. now rewrite app_nil_r, orb_false_r.
  - change (pump st (step :: steps)) with (pump (pumpStepRun st step) steps).
    destruct (pumpStepRun_chan st step ready Hw) as (o1 & C1 & B1).
    destruct (pumpStepRun_frame st step) as ((_&_&_&_&Hw1&_) & _).
    destruct (IH (pumpStepRun st step)) as (o2 & C2 & B2); [congruence|].
    exists (o1 ++ o2). rewrite C2, C1, B2, B1, existsb_app.
    now rewrite <- app_assoc, orb_assoc.
Qed.

(** With a predicate configured, the wait ends [Ready] when some test of
    the predicate succeeded and by the timer otherwise. *)
Lemma afterStart_wait w (p : Process) (c : Cmd) (pid : Z) ready :
  WaitingFor p = Some ready →
  runWait (afterStart w p c pid)
  = if existsb ready (runChecked (afterStart w p c pid)) then Ready
    else TimedOut readinessTimeout.
Proof.
  intros Hw. unfold afterStart.
  set (c' := mkCmd _ _ _ _ _). set (p5 := setRunning true _).
  set (st5 := mkPumped p5 false [EvStart c'] []).
  destruct (pump_chan st5 (pumpedEarly w) ready Hw) as (o6 & C6 & B6).
  destruct (pump_frame st5 (pumpedEarly w)) as ((_&_&_&_&Hw6&_) & _).
  cbn [pProc pChan pChecked st5 app orb] in C6, B6, Hw6.
  change (WaitingFor p5) with (WaitingFor p) in Hw6. rewrite Hw in Hw6.
  rewrite <- Hw6.
  pose proof (handleLineWrite_frame (pProc (pump st5 (pumpedEarly w)))
                runnerMessage) as (_&_&_&_&Hw7&_).
  destruct (handleLineWrite (pProc (pump st5 (pumpedEarly w))) runnerMessage)
    as [p7 evs7]. cbn [fst] in Hw7.
  set (st7 := mkPumped p7 _ _ _).
  destruct (pump_chan st7 (pumpedWaiting w) ready) as (o8 & C8 & B8).
  { cbn [pProc st7]. congruence. }
  cbn [runWait runChecked]. rewrite B8, C8. cbn [pChan pChecked st7].
  now rewrite B6, C6, existsb_app.
Qed.

Lemma prepared_frame w (p : Process) :
  File (prepared w p) = File p ∧ WaitingFor (prepared w p) = WaitingFor p
  ∧ running (prepared w p) = running p.
Proof.
  unfold prepared. destruct (loadEnv_frame w p) as (env' & ->).
  repeat split.
Qed.

Lemma Run_started w (p : Process) (pid : Z) :
  running p = false → File p ≠ EmptyString →
  (loadEnv w (initEnv p)).2 = Returned None →
  osStart w = Started pid →
  Run w p = afterStart w (prepared w p) (buildCmd w (prepared w p)) pid.
Proof.
  intros Hr Hf Hl Hs. rewrite Run_proceeds by assumption.
  rewrite Hl. unfold spawn. now rewrite Hs.
Qed.

End Readiness.

(** C4. When a readiness predicate is configured and the process was
    started, [Run] returns [nil] with the process running, whether or not
    the predicate ever held: if no test of the predicate by the pumps
    succeeded, the wait ends by the 30-second timer and [Run] still
    returns [nil]. *)
Theorem Run_readiness_timeout_is_success :
  ∀ (w : World) (p : Process) (ready : string → bool) (pid : Z),
    running p = false → File p ≠ EmptyString →
    (loadEnv w (initEnv p)).2 = Returned None →
    osStart w = Started pid →
    WaitingFor p = Some ready →
    runRet (Run w p) = Returned None
    ∧ running (runProc (Run w p)) = true
    ∧ (Forall (λ out, ready out = false) (runChecked (Run w p)) ↔
       runWait (Run w p) = TimedOut (30 * Second))
    ∧ (Exists (λ out, ready out = true) (runChecked (Run w p)) ↔
       runWait (Run w p) = Ready).
Proof.
  intros w p ready pid Hr Hf Hl Hs Hw.
  pose proof (Run_started w p pid Hr Hf Hl Hs) as Hrun.
  destruct (prepared_frame w p) as (_ & Hwp & _).
  pose proof (afterStart_wait w (prepared w p) (buildCmd w (prepared w p))
                pid ready ltac:(congruence)) as Hwait.
  destruct (afterStart_spec w (prepared w p) (buildCmd w (prepared w p)) pid)
    as (R & F & _).
  rewrite Hrun. split; [exact R|]. split.
  { destruct F as (_ & _ & _ & _ & _ & _ & F). now rewrite <- F. }
  rewrite Hwait. rewrite <- existsb_false_Forall, <- existsb_true_Exists.
  destruct (existsb ready _); split; split; intros H;
    try reflexivity; try discriminate.
Qed.

(** A child that never prints the awaited text: [Run] returns [nil]
    after the timer. *)
Lemma Run_silent_child_times_out :
  runRet (Run silentWorld waitingProcess) = Returned None
  ∧ running (runProc (Run silentWorld waitingProcess)) = true
  ∧ runWait (Run silentWorld waitingProcess) = TimedOut (30 * Second).
Proof.
  destruct (Run_readiness_timeout_is_success silentWorld waitingProcess
              (λ out, Contains out "ready") 4242)
    as (R & Hrun & HT & _).
  - reflexivity.
  - vm_compute. discriminate.
  - reflexivity.
  - reflexivity.
  - reflexivity.
  - split; [exact R|]. split; [exact Hrun|]. apply HT.
    vm_compute. repeat constructor.
Defined.

(** ** [Run] works on the caller's [Env] *)

Section PublicEnv.

Implicit Types (m : gmap string string) (toks : list string).

Lemma envLine_binds m text k v :
  parseLine text = Binding k v →
  ∃ m1, envLine (Some m) text = Returned (Some m1) ∧ is_Some (m1 !! k).
Proof.
  intros Hp. unfold envLine. rewrite Hp.
  destruct (m !! k) as [old|] eqn:Hk.
  - exists m. split; [reflexivity|]. rewrite Hk. eauto.
  - eexists. split; [reflexivity|]. rewrite lookup_insert_eq. eauto.
Qed.

(** A loop that ends without a panic has bound every key that a token
    binds. *)
Lemma envLoop_binds m toks ret :
  (envLoop (Some m) toks).1 = Returned ret →
  ∀ tok k v, tok ∈ toks → parseLine tok = Binding k v →
  ∃ m', (envLoop (Some m) toks).2 = Some m' ∧ is_Some (m' !! k).
Proof.
  revert m; induction toks as [|t toks IH]; intros m Hret tok k v Hin Hp.
  { now apply elem_of_nil in Hin. }
  cbn [envLoop] in *.
  pose proof (envLine_Some m t) as Hl.
  destruct (envLine (Some m) t) as [env1|msg] eqn:El; [|discriminate].
  destruct Hl as (m1 & -> & M1).
  apply elem_of_cons in Hin as [->|Hin].
  - destruct (envLine_binds m t k v Hp) as (m1' & El' & [v1 Hv1]).
    rewrite El in El'. inversion El'; subst m1'.
    destruct (envLoop_Some m1 toks) as (m' & E & K & _).
    exists m'. split; [exact E|]. exists v1. now apply K.
  - now apply (IH m1 Hret tok k v).
Qed.

Lemma loadEnv_binds w (p : Process) m e :
  Env p = Some m → EnvFile p ≠ EmptyString →
  (loadEnv w p).2 = Returned e →
  ∀ tok k v, tok ∈ fileTokens w (EnvFile p) → parseLine tok = Binding k v →
  ∃ m', Env (loadEnv w p).1 = Some m' ∧ is_Some (m' !! k).
Proof.
  intros Hm Hne. unfold loadEnv, loadEnvFile, fileTokens.
  rewrite (bool_decide_eq_true_2 _ Hne).
  destruct (osOpen w (EnvFile p)) as [err|content rerr].
  { intros _ tok k v Hin. now apply elem_of_nil in Hin. }
  destruct (Bufio.scanLines content) as [toks long]; cbn [fst].
  rewrite Hm. intros Hret tok k v Hin Hp.
  destruct (envLoop (Some m) toks) as [[ret|msg] env'] eqn:El;
    [|discriminate].
  destruct (envLoop_binds m toks ret) with (tok := tok) (k := k) (v := v)
    as (m' & E & Hk); try assumption.
  { now rewrite El. }
  rewrite El in E. cbn in E. subst env'. exists m'. now split.
Qed.

Lemma Stop_Env w (p : Process) : Env (Stop w p).1 = Env p.
Proof.
  unfold Stop. destruct (negb (running p)); [reflexivity|].
  now destruct (cmd p).
Qed.

End PublicEnv.

(** C10. A call of [Run] that passes the two guards works on the [Env]
    field itself: afterwards [Env] is a map, not nil (the empty map when
    it was nil and no environment file is named); when the file was read
    to its end without a panic every key that a line of the file binds is
    in [Env], with the explicit value or a value from the file; and what
    is in [Env] then is still there, unchanged, after any later [Run],
    whatever the file holds by then. *)
Theorem Run_merges_into_public_Env :
  ∀ (w later stopped : World) (p : Process),
    running p = false → File p ≠ EmptyString →
    ∃ m, Env (runProc (Run w p)) = Some m
         ∧ (Env p = None → EnvFile p = EmptyString → m = ∅)
         ∧ (∀ e tok k v,
              EnvFile p ≠ EmptyString →
              (loadEnv w (initEnv p)).2 = Returned e →
              tok ∈ fileTokens w (EnvFile p) → parseLine tok = Binding k v →
              ∃ v', m !! k = Some v'
                    ∧ (default ∅ (Env p) !! k = Some v'
                       ∨ (default ∅ (Env p) !! k = None
                          ∧ ∃ tok', tok' ∈ fileTokens w (EnvFile p)
                                    ∧ parseLine tok' = Binding k v')))
         ∧ (∀ k v, m !! k = Some v →
              ∃ m', Env (runProc (Run later (runProc (Run w p)))) = Some m'
                    ∧ m' !! k = Some v)
         ∧ (∀ k v, m !! k = Some v →
              ∃ m', Env (runProc
                           (Run later (Stop stopped (runProc (Run w p))).1))
                    = Some m'
                    ∧ m' !! k = Some v).
Proof.
  intros w later stopped p Hr Hf.
  assert (HE : Env (runProc (Run w p)) = Env (loadEnv w (initEnv p)).1).
  { rewrite Run_Env, Hr. now rewrite (bool_decide_eq_false_2 _ Hf). }
  destruct (loadEnv_spec w (initEnv p) _ (initEnv_Env p)) as (m & E & K & S).
  destruct (initEnv_frame p) as (_ & HEF & _). rewrite HEF in S.
  assert (Hkeep : ∀ p' k v, Env p' = Some m → m !! k = Some v →
            ∃ m', Env (runProc (Run later p')) = Some m' ∧ m' !! k = Some v).
  { intros p' k v Hp' Hk.
    destruct (Run_merges later p') as (m' & Hm' & K' & _).
    rewrite Hp' in K'. cbn in K'. exists m'. split; [|now apply K'].
    destruct Hm' as [Hm'|(_ & Hnil & _)]; [exact Hm' | congruence]. }
  exists m. split; [now rewrite HE, E|]. split; [|split; [|split]].
  - intros Hnil Hno. unfold loadEnv in E. rewrite HEF, Hno in E.
    rewrite bool_decide_eq_false_2 in E by (intros H; now apply H).
    cbn [fst] in E. apply (f_equal Env) in E. rewrite initEnv_Env, Hnil in E.
    cbn in E. congruence.
  - intros e tok k v Hne Hl Hin Hp.
    destruct (loadEnv_binds w (initEnv p) _ e (initEnv_Env p))
      with (tok := tok) (k := k) (v := v) as (m' & Em' & [v' Hv']);
      rewrite ?HEF; try assumption.
    rewrite E in Em'. cbn in Em'. inversion Em'; subst m'.
    exists v'. split; [exact Hv' | now apply S].
  - intros k v Hk. apply Hkeep; [now rewrite HE, E | exact Hk].
  - intros k v Hk. apply Hkeep; [|exact Hk].
    now rewrite Stop_Env, HE, E.
Qed.

(** A nil [Env] becomes the empty map; the entries of the sample file
    are in [Env] after [Run] and survive a [Stop] and a [Run] on a
    changed file. *)
Lemma Run_leaves_file_entries_in_Env :
  ∃ m, Env (runProc (Run (envFileWorld sampleFile) freshProcess)) = Some m
       ∧ m = ∅
       ∧ Env (runProc (Run (envFileWorld sampleFile) envFileProcess))
         = Some {[ "NAME" := "goat"; "URL" := "http://h/?a=b" ]}
       ∧ Env (runProc
                (Run (envFileWorld "NAME=ram")
                   (Stop portWorld
                      (runProc (Run (envFileWorld sampleFile)
                                    envFileProcess))).1))
         = Some {[ "NAME" := "goat"; "URL" := "http://h/?a=b" ]}.
Proof.
  destruct (Run_merges_into_public_Env
              (envFileWorld sampleFile) portWorld portWorld freshProcess)
    as (m & Hm & Hnil & _).
  - reflexivity.
  - vm_compute. discriminate.
  - exists m. split; [exact Hm|]. split; [now apply Hnil|].
    split; vm_compute; reflexivity.
Defined.

(** * Further properties of the code *)

(** ** Searching the captured text *)

Section Searching.

Implicit Types (s sub pre post text : string) (tsw : threadSafeWriter).

Lemma HasPrefix_spec s pre :
  HasPrefix s pre = true ↔ ∃ post, s = pre +:+ post.
Proof.
  revert s; induction pre as [|a pre IH]; intros s.
  - rewrite HasPrefix_empty. split; [intros _; now exists s | reflexivity].
  - destruct s as [|b s]; cbn [HasPrefix].
    + split; [discriminate | intros [post H]; discriminate].
    + rewrite andb_true_iff, IH. split.
      * intros [Hab [post ->]]. apply Ascii.eqb_eq in Hab as ->.
        now exists post.
      * intros [post H]. rewrite append_cons in H. inversion H; subst.
        split; [apply Ascii.eqb_refl | now exists post].
Qed.

Lemma Contains_unfold s sub :
  Contains s sub
  = HasPrefix s sub
    || match s with
       | EmptyString => false
       | String _ s' => Contains s' sub
       end.
Proof. now destruct s. Qed.

Lemma Contains_spec s sub :
  Contains s sub = true ↔ ∃ pre post, s = pre +:+ sub +:+ post.
Proof.
  split.
  - induction s as [|a s IH]; rewrite Contains_unfold, orb_true_iff.
    + intros [H|H]; [|discriminate].
      apply HasPrefix_spec in H as [post ->]. now exists EmptyString, post.
    + intros [H|H].
      * apply HasPrefix_spec in H as [post ->]. now exists EmptyString, post.
      * destruct (IH H) as (pre & post & ->).
        exists (String a pre), post. now rewrite append_cons.
  - intros (pre & post & ->). induction pre as [|a pre IH].
    + rewrite Contains_unfold, orb_true_iff. left.
      apply HasPrefix_spec. now exists post.
    + rewrite append_cons, Contains_unfold, orb_true_iff. now right.
Qed.

End Searching.

(** X1. [containsOutput] holds of a text exactly when the text occurs in
    what [getOutput] returns, as a run of consecutive bytes. *)
Theorem containsOutput_iff_substring :
  ∀ (tsw : threadSafeWriter) (text : string),
    containsOutput tsw text = true
    ↔ ∃ pre post, getOutput tsw = pre +:+ text +:+ post.
Proof. intros tsw text. apply Contains_spec. Qed.

(** X2. A write never makes a text disappear: what [containsOutput]
    found before a [Write] it finds after it; the chunk written is found;
    and a text that spans two successive chunks is found although no
    element of [lines] holds it. *)
Theorem containsOutput_grows_with_writes :
  ∀ (tsw : threadSafeWriter) (a b text : string),
    (containsOutput tsw text = true →
     containsOutput (Write tsw a).1.1 text = true)
    ∧ containsOutput (Write tsw a).1.1 a = true
    ∧ containsOutput (Write (Write tsw a).1.1 b).1.1 (a +:+ b) = true.
Proof.
  intros tsw a b text. unfold containsOutput. rewrite !Write_buffer.
  split; [|split].
  - intros H. apply Contains_spec in H as (pre & post & ->).
    apply Contains_spec. exists pre, (post +:+ a).
    now rewrite !append_assoc.
  - apply Contains_spec. exists (buffer tsw), EmptyString.
    now rewrite append_empty_r.
  - apply Contains_spec. exists (buffer tsw), EmptyString.
    now rewrite append_empty_r, append_assoc.
Qed.

(** A text found across the boundary of two lines is still found after a
    third line. *)
Lemma containsOutput_across_lines :
  containsOutput
    (Write (Write (Write (newThreadSafeWriter None) "Server is ").1.1
                  "running").1.1 " on port 1010").1.1
    "is run" = true.
Proof.
  apply (proj1 (containsOutput_grows_with_writes
                  (Write (Write (newThreadSafeWriter None) "Server is ").1.1
                         "running").1.1
                  " on port 1010" EmptyString "is run")).
  vm_compute. reflexivity.
Defined.

(** X3. The empty text is contained in every writer's output, and after
    [reset] it is the only text that is. *)
Theorem containsOutput_after_reset :
  ∀ (tsw : threadSafeWriter) (text : string),
    containsOutput tsw EmptyString = true
    ∧ containsOutput (reset tsw) text = bool_decide (text = EmptyString).
Proof.
  intros tsw text. split.
  - unfold containsOutput. rewrite Contains_unfold. now rewrite HasPrefix_empty.
  - unfold containsOutput, reset; cbn [buffer].
    destruct text as [|c text]; reflexivity.
Qed.

(** ** The delegate *)

Lemma opsEvents_spec (tsw : threadSafeWriter) (ops : list writerOp) :
  opsEvents tsw ops
  = match delegate tsw with
    | Some d => EvDelegateWrite d <$> opsWritten ops
    | None => []
    end.
Proof.
  revert tsw.
  induction ops as [|[chunk|] ops IH]; intros tsw; cbn [opsEvents opsWritten].
  - now destruct (delegate tsw).
  - rewrite IH. change (delegate (Write tsw chunk).1.1) with (delegate tsw).
    unfold Write; cbn [snd]. now destruct (delegate tsw).
  - rewrite IH. reflexivity.
Qed.

(** X4. Over any history of writes and resets the delegate, when there is
    one, receives every chunk written, empty ones too, in the order of
    the writes and whatever resets lie between; without a delegate
    nothing is written outside. *)
Theorem delegate_receives_every_chunk :
  ∀ (tsw : threadSafeWriter) (ops : list writerOp),
    opsEvents tsw ops
    = match delegate tsw with
      | Some d => EvDelegateWrite d <$> opsWritten ops
      | None => []
      end.
Proof. exact opsEvents_spec. Qed.

(** ** Polling for a text *)

Section Polling.

Implicit Types (lag : nat → N) (observe : nat → threadSafeWriter)
               (text : string) (timeout : Z).

Lemma elapsedAt_S lag (k : nat) :
  elapsedAt lag (S k) = elapsedAt lag k + 10 * Millisecond + Z.of_N (lag (S k)).
Proof. reflexivity. Qed.

Lemma elapsedAt_mono lag (k j : nat) :
  elapsedAt lag k <= elapsedAt lag (k + j).
Proof.
  induction j as [|j IH]; [rewrite Nat.add_0_r; lia|].
  replace (k + S j)%nat with (S (k + j)) by lia. rewrite elapsedAt_S.
  unfold Millisecond. lia.
Qed.

(** Poll [k] is made no earlier than [k] sleeps after the call. *)
Lemma elapsedAt_lower lag (k : nat) :
  Z.of_nat k * (10 * Millisecond) <= elapsedAt lag k.
Proof.
  induction k as [|k IH]; [cbn; lia|].
  rewrite elapsedAt_S. unfold Millisecond in *. lia.
Qed.

Lemma pollCount_spec timeout (k : nat) :
  (k < pollCount timeout)%nat ↔ Z.of_nat k * (10 * Millisecond) < timeout.
Proof.
  unfold pollCount, Millisecond.
  destruct (Z_lt_le_dec 0 timeout) as [Hpos|Hle].
  - pose proof (Z.div_mod (timeout + 10 * 1000000 - 1) (10 * 1000000)
                  ltac:(lia)) as Hdm.
    pose proof (Z.mod_pos_bound (timeout + 10 * 1000000 - 1)
                  (10 * 1000000) ltac:(lia)) as Hb.
    assert (0 <= (timeout + 10 * 1000000 - 1) / (10 * 1000000))
      by (apply Z.div_pos; lia).
    split; intros Hk; [|apply Nat2Z.inj_lt; rewrite Z2Nat.id by lia];
      [apply Nat2Z.inj_lt in Hk; rewrite Z2Nat.id in Hk by lia|]; nia.
  - assert ((timeout + 10 * 1000000 - 1) / (10 * 1000000) <= 0).
    { apply Z.lt_succ_r, Z.div_lt_upper_bound; lia. }
    rewrite Z2Nat.nonpos by lia. split; [lia | intros; lia].
Qed.

Lemma pollLoop_spec lag observe text timeout (fuel k0 : nat) :
  pollLoop fuel k0 lag observe text timeout = true
  ↔ ∃ j, (j < fuel)%nat ∧ elapsedAt lag (k0 + j) < timeout
         ∧ containsOutput (observe (k0 + j)%nat) text = true.
Proof.
  revert k0; induction fuel as [|fuel IH]; intros k0; cbn [pollLoop].
  - split; [discriminate | intros (j & Hj & _); lia].
  - destruct (elapsedAt lag k0 <? timeout) eqn:Ht.
    + apply Z.ltb_lt in Ht.
      destruct (containsOutput (observe k0) text) eqn:Hc.
      * split; [intros _|reflexivity]. exists 0%nat.
        rewrite Nat.add_0_r. split; [lia|]. split; [exact Ht | exact Hc].
      * rewrite IH. split.
        -- intros (j & Hj & Hlt & H). exists (S j). split; [lia|].
           now replace (k0 + S j)%nat with (S k0 + j)%nat by lia.
        -- intros (j & Hj & Hlt & H). destruct j as [|j].
           ++ rewrite Nat.add_0_r in H. congruence.
           ++ exists j. split; [lia|].
              now replace (S k0 + j)%nat with (k0 + S j)%nat by lia.
    + apply Z.ltb_ge in Ht. split; [discriminate|].
      intros (j & _ & Hlt & _). pose proof (elapsedAt_mono lag k0 j). lia.
Qed.

(** With any fuel above the number of polls that fit before the deadline
    the loop gives one and the same answer. *)
Lemma pollLoop_enough lag observe text timeout (extra : nat) :
  pollLoop (S (pollCount timeout) + extra) 0 lag observe text timeout = true
  ↔ ∃ k, elapsedAt lag k < timeout
         ∧ containsOutput (observe k) text = true.
Proof.
  rewrite pollLoop_spec. split.
  - intros (j & _ & Hlt & H). now exists j.
  - intros (k & Hlt & H). exists k. split; [|split; assumption].
    pose proof (elapsedAt_lower lag k) as Hlow.
    assert (k < pollCount timeout)%nat by (apply pollCount_spec; lia). lia.
Qed.

End Polling.

(** X5. [waitForOutput] returns true exactly when a poll made while the
    clock is still before the deadline sees the text; poll [k] is made
    no earlier than [k] times 10ms after the call. So it returns false,
    without a poll, when the timeout is zero or less, and also when the
    timeout has passed by the first reading of the clock, even if the
    text has been captured; and it returns true when the first reading
    is before the deadline and the text is there. The loop of the model
    ends by the clock: more fuel never changes the answer. *)
Theorem waitForOutput_polls :
  ∀ (lag : nat → N) (observe : nat → threadSafeWriter) (text : string)
    (timeout : Z),
    (waitForOutput lag observe text timeout = true
     ↔ ∃ k, elapsedAt lag k < timeout
            ∧ containsOutput (observe k) text = true)
    ∧ (waitForOutput lag observe text timeout = true → 0 < timeout)
    ∧ (timeout <= Z.of_N (lag 0%nat) →
       waitForOutput lag observe text timeout = false)
    ∧ (∀ k, Z.of_nat k * (10 * Millisecond) <= elapsedAt lag k)
    ∧ (∀ extra,
         pollLoop (S (pollCount timeout) + extra) 0 lag observe text timeout
         = waitForOutput lag observe text timeout).
Proof.
  intros lag observe text timeout.
  assert (Hiff : waitForOutput lag observe text timeout = true
     ↔ ∃ k, elapsedAt lag k < timeout
            ∧ containsOutput (observe k) text = true).
  { pose proof (pollLoop_enough lag observe text timeout 0) as H.
    now rewrite Nat.add_0_r in H. }
  assert (Hpos : waitForOutput lag observe text timeout = true → 0 < timeout).
  { intros H. apply Hiff in H as (k & Hk & _).
    pose proof (elapsedAt_lower lag k). unfold Millisecond in *. lia. }
  split; [exact Hiff|]. split; [exact Hpos|]. split; [|split].
  - intros Hle. apply not_true_is_false. intros E.
    apply Hiff in E as (k & Hk & _).
    pose proof (elapsedAt_mono lag 0 k) as Hm. cbn in Hm. lia.
  - apply elapsedAt_lower.
  - intros extra. apply Bool.eq_true_iff_eq.
    rewrite (pollLoop_enough lag observe text timeout extra). now rewrite Hiff.
Qed.

(** With the text captured: found when the first reading of the clock is
    before the deadline; not found with a timeout of one nanosecond when
    one nanosecond has passed by then. *)
Lemma waitForOutput_first_poll :
  waitForOutput (λ _, 0%N) (λ _, (Write (newThreadSafeWriter None) "up").1.1)
                "up" (5 * Second) = true
  ∧ waitForOutput (λ _, 1%N) (λ _, (Write (newThreadSafeWriter None) "up").1.1)
                  "up" 1 = false.
Proof.
  split.
  - apply (proj1 (waitForOutput_polls (λ _, 0%N)
             (λ _, (Write (newThreadSafeWriter None) "up").1.1) "up"
             (5 * Second))).
    exists 0%nat. split; vm_compute; reflexivity.
  - apply (proj1 (proj2 (proj2 (waitForOutput_polls (λ _, 1%N)
             (λ _, (Write (newThreadSafeWriter None) "up").1.1) "up" 1)))).
    vm_compute. discriminate.
Defined.

(** ** What a started [Run] captures and passes on *)

Section Capture.

Implicit Types (st : pumped) (tsw : threadSafeWriter) (w : World)
               (p : Process).

Lemma applyOps_app tsw (xs ys : list writerOp) :
  applyOps tsw (xs ++ ys) = applyOps (applyOps tsw xs) ys.
Proof. unfold applyOps. apply fold_left_app. Qed.

Lemma opsEvents_app tsw (xs ys : list writerOp) :
  opsEvents tsw (xs ++ ys)
  = opsEvents tsw xs ++ opsEvents (applyOps tsw xs) ys.
Proof.
  revert tsw; induction xs as [|[chunk|] xs IH]; intros tsw; cbn [app opsEvents].
  - reflexivity.
  - rewrite IH, applyOps_cons. now rewrite <- app_assoc.
  - rewrite IH, applyOps_cons. reflexivity.
Qed.

Lemma sinceReset_writes (chunks : list string) :
  sinceReset (OpWrite <$> chunks) = (false, chunks).
Proof.
  induction chunks as [|c cs IH]; [reflexivity|].
  cbn [fmap list_fmap sinceReset]. change (list_fmap _ _ OpWrite cs)
    with (OpWrite <$> cs). now rewrite IH.
Qed.

Lemma opsWritten_writes (chunks : list string) :
  opsWritten (OpWrite <$> chunks) = chunks.
Proof.
  induction chunks as [|c cs IH]; [reflexivity|].
  cbn [fmap list_fmap opsWritten]. change (list_fmap _ _ OpWrite cs)
    with (OpWrite <$> cs). now rewrite IH.
Qed.

(** The pumps' writes are the writer's history; their tests change
    nothing in it. *)
Lemma pump_writer st steps tsw :
  safeWriter (pProc st) = Some tsw →
  safeWriter (pProc (pump st steps))
  = Some (applyOps tsw (OpWrite <$> writesOf steps))
  ∧ pEvents (pump st steps)
    = pEvents st ++ opsEvents tsw (OpWrite <$> writesOf steps).
Proof.
  revert st tsw; induction steps as [|[line|] steps IH]; intros st tsw Hw.
  - cbn. now rewrite app_nil_r.
  - change (pump st (StepWrite line :: steps))
      with (pump (pumpStepRun st (StepWrite line)) steps).
    cbn [writesOf fmap list_fmap opsEvents].
    change (list_fmap _ _ OpWrite (writesOf steps))
      with (OpWrite <$> writesOf steps).
    rewrite applyOps_cons. cbn [applyOp].
    destruct (IH (pumpStepRun st (StepWrite line)) (Write tsw line).1.1)
      as (S1 & E1).
    { unfold pumpStepRun, handleLineWrite. rewrite Hw.
      now destruct (Write tsw line) as [[tsw' r] evs]. }
    rewrite S1, E1. split; [reflexivity|].
    unfold pumpStepRun, handleLineWrite. rewrite Hw.
    destruct (Write tsw line) as [[tsw' r] evs]; cbn.
    now rewrite <- app_assoc.
  - change (pump st (StepCheck :: steps))
      with (pump (pumpStepRun st StepCheck) steps).
    cbn [writesOf].
    destruct (IH (pumpStepRun st StepCheck) tsw) as (S1 & E1).
    { unfold pumpStepRun.
      now destruct (handleLineCheck (pProc st) (pChan st)). }
    rewrite S1, E1. split; [reflexivity|]. unfold pumpStepRun.
    now destruct (handleLineCheck (pProc st) (pChan st)).
Qed.

Lemma afterStart_capture w p (c : Cmd) (pid : Z) tsw :
  safeWriter p = Some tsw →
  safeWriter (runProc (afterStart w p c pid))
  = Some (applyOps tsw (OpWrite <$> runWrites w p))
  ∧ runEvents (afterStart w p c pid)
    = EvStart (mkCmd (Args c) (CmdEnv c) (Dir c) (Setpgid c) (Some pid))
      :: opsEvents tsw (OpWrite <$> runWrites w p).
Proof.
  intros Hw. unfold afterStart, runWrites.
  set (c' := mkCmd _ _ _ _ _). set (p5 := setRunning true _).
  set (st5 := mkPumped p5 false [EvStart c'] []).
  destruct (pump_writer st5 (pumpedEarly w) tsw Hw) as (S6 & E6).
  destruct (pump_frame st5 (pumpedEarly w)) as ((_&_&_&_&Hw6&_) & _).
  cbn [pProc st5] in Hw6. change (WaitingFor p5) with (WaitingFor p) in Hw6.
  rewrite <- Hw6. destruct (WaitingFor p) as [ready|].
  - unfold handleLineWrite at 1 2. rewrite S6.
    set (tsw6 := applyOps tsw (OpWrite <$> writesOf (pumpedEarly w))) in *.
    destruct (Write tsw6 runnerMessage) as [[tsw7 r7] evs7] eqn:W7.
    set (st7 := mkPumped _ _ _ _).
    destruct (pump_writer st7 (pumpedWaiting w) tsw7 eq_refl) as (S8 & E8).
    cbn [runProc runEvents]. rewrite S8, E8. cbn [pEvents st7].
    rewrite E6. cbn [pEvents st5 app].
    assert (T7 : tsw7 = applyOp tsw6 (OpWrite runnerMessage))
      by (cbn [applyOp]; now rewrite W7).
    assert (V7 : evs7 = (Write tsw6 runnerMessage).2) by now rewrite W7.
    rewrite !fmap_app, !applyOps_app, !opsEvents_app. cbn [fmap list_fmap].
    fold tsw6. rewrite T7, V7. split.
    + reflexivity.
    + cbn [opsEvents applyOps fold_left app applyOp].
      now rewrite <- !app_assoc.
  - cbn [runProc runEvents]. now rewrite S6, E6.
Qed.

Lemma prepared_writer w p :
  safeWriter (prepared w p) = Some (newThreadSafeWriter (LogStream p)).
Proof.
  unfold prepared. destruct (loadEnv_frame w p) as (env' & ->). reflexivity.
Qed.

Lemma prepared_runWrites w p : runWrites w (prepared w p) = runWrites w p.
Proof.
  unfold runWrites. destruct (prepared_frame w p) as (_ & -> & _).
  reflexivity.
Qed.

(** After a [Run] that started the process the writer is a fresh one
    with the calls of this run, and the events are the start followed by
    the delegate's share of them. *)
Lemma Run_capture w p (pid : Z) :
  running p = false → File p ≠ EmptyString →
  (loadEnv w (initEnv p)).2 = Returned None →
  osStart w = Started pid →
  safeWriter (runProc (Run w p))
  = Some (applyOps (newThreadSafeWriter (LogStream p))
                   (OpWrite <$> runWrites w p))
  ∧ runEvents (Run w p)
    = EvStart (startedCmd w p pid)
      :: opsEvents (newThreadSafeWriter (LogStream p))
                   (OpWrite <$> runWrites w p).
Proof.
  intros Hr Hf Hl Hs. rewrite (Run_started w p pid Hr Hf Hl Hs).
  destruct (afterStart_capture w (prepared w p) (buildCmd w (prepared w p))
              pid _ (prepared_writer w p)) as (S & E).
  rewrite S, E, prepared_runWrites. split; reflexivity.
Qed.

End Capture.

(** X6. A [Run] that starts the process captures into a fresh writer:
    when it returns, [GetOutput] is the concatenation of the lines the
    pumps wrote during this call, with [Run]'s own readiness message
    between the early ones and the later ones when a predicate is
    configured, and [GetLines] holds the non-empty ones; what an earlier
    run had captured is gone. *)
Theorem Run_captures_only_this_run :
  ∀ (w : World) (p : Process) (pid : Z),
    running p = false → File p ≠ EmptyString →
    (loadEnv w (initEnv p)).2 = Returned None →
    osStart w = Started pid →
    GetOutput (runProc (Run w p)) = concat (runWrites w p)
    ∧ sliceElems (GetLines (runProc (Run w p)))
      = filter nonEmpty (runWrites w p).
Proof.
  intros w p pid Hr Hf Hl Hs.
  destruct (Run_capture w p pid Hr Hf Hl Hs) as (S & _).
  unfold GetOutput, GetLines. rewrite S. unfold getOutput, getLines.
  cbn [sliceElems].
  pose proof (applyOps_state (newThreadSafeWriter (LogStream p))
                (OpWrite <$> runWrites w p)) as H.
  rewrite sinceReset_writes in H. destruct H as (Hb & Hl').
  rewrite Hb, Hl'. split; reflexivity.
Qed.

(** The capture of a run with two pump lines and a predicate. *)
Lemma Run_captures_pump_lines :
  GetOutput (runProc (Run silentWorld waitingProcess))
  = "booting" +:+ String "010" EmptyString +:+ runnerMessage
    +:+ "still booting" +:+ String "010" EmptyString.
Proof.
  destruct (Run_captures_only_this_run silentWorld waitingProcess 4242)
    as (H & _).
  - reflexivity.
  - vm_compute. discriminate.
  - reflexivity.
  - reflexivity.
  - rewrite H. vm_compute. reflexivity.
Defined.

(** X7. The events of a [Run] that starts the process are the start of
    the command followed, when a [LogStream] is configured, by one write
    to it for each captured chunk, in order, and by nothing else; without
    a [LogStream] the start is the only event. *)
Theorem Run_forwards_capture_to_LogStream :
  ∀ (w : World) (p : Process) (pid : Z),
    running p = false → File p ≠ EmptyString →
    (loadEnv w (initEnv p)).2 = Returned None →
    osStart w = Started pid →
    runEvents (Run w p)
    = EvStart (startedCmd w p pid)
      :: match LogStream p with
         | Some d => EvDelegateWrite d <$> runWrites w p
         | None => []
         end.
Proof.
  intros w p pid Hr Hf Hl Hs.
  destruct (Run_capture w p pid Hr Hf Hl Hs) as (_ & E).
  rewrite E, opsEvents_spec, opsWritten_writes. reflexivity.
Qed.

(** The events of a run with a [LogStream] and two pump lines. *)
Lemma Run_forwards_pump_lines :
  runEvents (Run silentWorld freshProcess)
  = [EvStart (startedCmd silentWorld freshProcess 4242);
     EvDelegateWrite 1%nat ("booting" +:+ String "010" EmptyString)].
Proof.
  rewrite (Run_forwards_capture_to_LogStream silentWorld freshProcess 4242).
  - reflexivity.
  - reflexivity.
  - vm_compute. discriminate.
  - reflexivity.
  - reflexivity.
Defined.

(** ** The command that [Run] starts *)

Lemma envPairs_elem (m : gmap string string) (s : string) :
  s ∈ envPairs (Some m) ↔ ∃ k v, m !! k = Some v ∧ s = envEntry k v.
Proof.
  unfold envPairs. rewrite list_elem_of_fmap. split.
  - intros ([k v] & -> & Hin). exists k, v.
    split; [now apply elem_of_map_to_list | reflexivity].
  - intros (k & v & Hkv & ->). exists (k, v).
    split; [reflexivity | now apply elem_of_map_to_list].
Qed.

Lemma Run_started_state (w : World) (p : Process) (pid : Z) :
  running p = false → File p ≠ EmptyString →
  (loadEnv w (initEnv p)).2 = Returned None →
  osStart w = Started pid →
  running (runProc (Run w p)) = true
  ∧ cmd (runProc (Run w p)) = Some (startedCmd w p pid)
  ∧ File (runProc (Run w p)) = File p
  ∧ EnvFile (runProc (Run w p)) = EnvFile p
  ∧ LogStream (runProc (Run w p)) = LogStream p
  ∧ WaitingFor (runProc (Run w p)) = WaitingFor p.
Proof.
  intros Hr Hf Hl Hs. rewrite (Run_started w p pid Hr Hf Hl Hs).
  destruct (afterStart_spec w (prepared w p) (buildCmd w (prepared w p)) pid)
    as (_ & (F1 & _ & F3 & F4 & F5 & F6 & F7) & _).
  rewrite <- F1, <- F3, <- F4, <- F5, <- F6, <- F7.
  split; [reflexivity|]. split; [reflexivity|].
  unfold prepared. destruct (loadEnv_frame w p) as (env' & ->).
  repeat split.
Qed.

(** X8. The command of a [Run] that starts the process is [go run File]
    in its own process group, in the working directory (left empty when
    it cannot be found); its environment is the inherited one followed
    by one [KEY=VALUE] entry for each entry of [Env] as the loader left
    it, and nothing else; the command is kept in the process. *)
Theorem Run_command_shape :
  ∀ (w : World) (p : Process) (pid : Z),
    running p = false → File p ≠ EmptyString →
    (loadEnv w (initEnv p)).2 = Returned None →
    osStart w = Started pid →
    ∃ (c : Cmd) (m : gmap string string) (rest : list string),
      cmd (runProc (Run w p)) = Some c
      ∧ Env (runProc (Run w p)) = Some m
      ∧ Args c = ["go"; "run"; File p]
      ∧ Setpgid c = true
      ∧ Dir c = default EmptyString (osGetwd w)
      ∧ Proc c = Some pid
      ∧ CmdEnv c = osEnviron w ++ rest
      ∧ length rest = size m
      ∧ ∀ s, s ∈ rest ↔ ∃ k v, m !! k = Some v ∧ s = envEntry k v.
Proof.
  intros w p pid Hr Hf Hl Hs.
  pose proof (Run_Env w p) as HE. rewrite Hr in HE.
  rewrite (bool_decide_eq_false_2 _ Hf) in HE.
  destruct (loadEnv_spec w (initEnv p) _ (initEnv_Env p)) as (m & Ep & _).
  assert (Hm : Env (loadEnv w (initEnv p)).1 = Some m) by now rewrite Ep.
  destruct (prepared_frame w p) as (HF & _ & _).
  destruct (Run_started_state w p pid Hr Hf Hl Hs) as (_ & Hc & _).
  exists (startedCmd w p pid), m, (envPairs (Some m)).
  split; [exact Hc|]. split; [now rewrite HE|].
  unfold startedCmd, buildCmd; cbn [Args Setpgid Dir Proc CmdEnv].
  rewrite HF. change (Env (prepared w p)) with (Env (loadEnv w (initEnv p)).1).
  rewrite Hm. split; [reflexivity|]. split; [reflexivity|].
  split; [reflexivity|]. split; [reflexivity|]. split; [reflexivity|].
  split.
  - unfold envPairs. rewrite length_fmap. apply length_map_to_list.
  - intros s0. apply envPairs_elem.
Qed.

(** The command of the override fixture. *)
Lemma Run_command_of_port_fixture :
  ∃ (c : Cmd) (m : gmap string string) (rest : list string),
    cmd (runProc (Run portWorld portProcess)) = Some c
    ∧ Env (runProc (Run portWorld portProcess)) = Some m
    ∧ Args c = ["go"; "run"; "test/cmd/rest_api/main.go"]
    ∧ Setpgid c = true
    ∧ Dir c = "/work"
    ∧ Proc c = Some 4242
    ∧ CmdEnv c = ["HOME=/root"] ++ rest
    ∧ length rest = size m
    ∧ ∀ s, s ∈ rest ↔ ∃ k v, m !! k = Some v ∧ s = envEntry k v.
Proof.
  apply (Run_command_shape portWorld portProcess 4242).
  - reflexivity.
  - vm_compute. discriminate.
  - vm_compute. reflexivity.
  - reflexivity.
Defined.

(** ** [Stop] after [Run] *)

(** X9. [Stop] after a [Run] that started the process kills exactly
    once: the process group of the child when its group id can be
    resolved, the child alone otherwise. It leaves the process not
    running and keeps the command, [Env] and the captured output, which
    can still be read. *)
Theorem Stop_kills_what_Run_started :
  ∀ (w stopping : World) (p : Process) (pid : Z),
    running p = false → File p ≠ EmptyString →
    (loadEnv w (initEnv p)).2 = Returned None →
    osStart w = Started pid →
    (Stop stopping (runProc (Run w p))).2
    = [match osGetpgid stopping pid with
       | Some pgid => EvKillGroup pgid
       | None => EvKillProcess pid
       end]
    ∧ (Stop stopping (runProc (Run w p))).1
      = setRunning false (runProc (Run w p))
    ∧ running (Stop stopping (runProc (Run w p))).1 = false
    ∧ GetOutput (Stop stopping (runProc (Run w p))).1
      = GetOutput (runProc (Run w p)).
Proof.
  intros w stopping p pid Hr Hf Hl Hs.
  destruct (Run_started_state w p pid Hr Hf Hl Hs) as (Hrun & Hc & _).
  unfold Stop. rewrite Hrun, Hc. cbn [negb startedCmd Proc fst snd].
  repeat split. now destruct (osGetpgid stopping pid).
Qed.

(** [Stop] on the override fixture kills the group of the child. *)
Lemma Stop_kills_port_fixture :
  (Stop portWorld (runProc (Run portWorld portProcess))).2
  = [EvKillGroup 4242]
  ∧ running (Stop portWorld (runProc (Run portWorld portProcess))).1 = false.
Proof.
  destruct (Stop_kills_what_Run_started portWorld portWorld portProcess 4242)
    as (E & _ & R & _).
  - reflexivity.
  - vm_compute. discriminate.
  - vm_compute. reflexivity.
  - reflexivity.
  - split; [exact E | exact R].
Defined.

(** X10. [Stop] re-arms [Run]: after a run that started the process and
    a [Stop], a further [Run] starts a command again, returns [nil] with
    the process running, and captures from scratch only what this new
    run writes. *)
Theorem Stop_rearms_Run :
  ∀ (w stopping w' : World) (p : Process) (pid pid' : Z),
    running p = false → File p ≠ EmptyString →
    (loadEnv w (initEnv p)).2 = Returned None →
    osStart w = Started pid →
    (loadEnv w' (initEnv (Stop stopping (runProc (Run w p))).1)).2
      = Returned None →
    osStart w' = Started pid' →
    runRet (Run w' (Stop stopping (runProc (Run w p))).1) = Returned None
    ∧ running (runProc (Run w' (Stop stopping (runProc (Run w p))).1)) = true
    ∧ (∃ evs, runEvents (Run w' (Stop stopping (runProc (Run w p))).1)
              = EvStart (startedCmd w' (Stop stopping (runProc (Run w p))).1
                                    pid') :: evs)
    ∧ GetOutput (runProc (Run w' (Stop stopping (runProc (Run w p))).1))
      = concat (runWrites w' p).
Proof.
  intros w stopping w' p pid pid' Hr Hf Hl Hs.
  destruct (Run_started_state w p pid Hr Hf Hl Hs)
    as (Hrun & Hc & HF & _ & _ & HW).
  assert (Hstop : (Stop stopping (runProc (Run w p))).1
                  = setRunning false (runProc (Run w p))).
  { unfold Stop. now rewrite Hrun, Hc. }
  rewrite Hstop. set (p1 := setRunning false (runProc (Run w p))).
  intros Hl' Hs'.
  assert (Hr1 : running p1 = false) by reflexivity.
  assert (Hf1 : File p1 ≠ EmptyString).
  { change (File p1) with (File (runProc (Run w p))). now rewrite HF. }
  destruct (Run_started_state w' p1 pid' Hr1 Hf1 Hl' Hs') as (Hrun' & _).
  destruct (Run_capture w' p1 pid' Hr1 Hf1 Hl' Hs') as (S & E).
  split. { rewrite (Run_started w' p1 pid' Hr1 Hf1 Hl' Hs').
           now destruct (afterStart_spec w' (prepared w' p1)
                           (buildCmd w' (prepared w' p1)) pid'). }
  split; [exact Hrun'|]. split; [eexists; exact E|].
  unfold GetOutput. rewrite S. unfold getOutput.
  pose proof (applyOps_state (newThreadSafeWriter (LogStream p1))
                (OpWrite <$> runWrites w' p1)) as H.
  rewrite sinceReset_writes in H. destruct H as (Hb & _). rewrite Hb.
  unfold runWrites. change (WaitingFor p1) with (WaitingFor (runProc (Run w p))).
  now rewrite HW.
Qed.

(** The override fixture run, stopped and run again. *)
Lemma Stop_rearms_port_fixture :
  runRet (Run portWorld (Stop portWorld (runProc (Run portWorld portProcess))).1)
  = Returned None
  ∧ running (runProc (Run portWorld
                (Stop portWorld (runProc (Run portWorld portProcess))).1))
    = true.
Proof.
  destruct (Stop_rearms_Run portWorld portWorld portWorld portProcess 4242 4242)
    as (R & Hrun & _).
  - reflexivity.
  - vm_compute. discriminate.
  - vm_compute. reflexivity.
  - reflexivity.
  - vm_compute. reflexivity.
  - reflexivity.
  - split; [exact R | exact Hrun].
Defined.

(** ** [Run] and the file system *)

(** X11. Without an [EnvFile], [Run] opens no file: its result does not
    depend on what [os.Open] would answer. *)
Theorem Run_without_EnvFile_opens_nothing :
  ∀ (w : World) (p : Process) (open' : string → openResult),
    EnvFile p = EmptyString →
    Run (withOpen open' w) p = Run w p.
Proof.
  intros w p open' He. unfold Run.
  destruct (running p); [reflexivity|].
  destruct (bool_decide (File p = EmptyString)); [reflexivity|].
  assert (Hl : ∀ w0, loadEnv w0 (initEnv p) = (initEnv p, Returned None)).
  { intros w0. unfold loadEnv. destruct (initEnv_frame p) as (_ & -> & _).
    rewrite He. now rewrite bool_decide_eq_false_2 by (intros H; now apply H). }
  rewrite !Hl. reflexivity.
Qed.

(** A process without [EnvFile] in a world whose files cannot be opened
    and in one whose files hold a lone quote. *)
Lemma Run_fresh_process_opens_nothing :
  Run (withOpen (λ _, Opened loneQuoteFile None) missingFileWorld) freshProcess
  = Run missingFileWorld freshProcess.
Proof.
  apply (Run_without_EnvFile_opens_nothing missingFileWorld freshProcess).
  reflexivity.
Defined.

(** ** When [Run] panics *)

Section Panics.
Import EnvFileSpec.

Implicit Types (m : gmap string string) (toks : list string).

Lemma loneQuote_dec line : {loneQuote line} + {¬ loneQuote line}.
Proof.
  destruct (loneQuoteb line) eqn:H.
  - left. now apply loneQuote_b.
  - right. intros Hl. apply loneQuote_b in Hl. congruence.
Qed.

(** On a non-nil map the loop panics exactly when a token is a
    lone-quote line, and then with the slice panic. *)
Lemma envLoop_panics m toks :
  match (envLoop (Some m) toks).1 with
  | Panicked msg =>
      msg = "slice bounds out of range" ∧ ∃ tok, tok ∈ toks ∧ loneQuote tok
  | Returned _ => ∀ tok, tok ∈ toks → ¬ loneQuote tok
  end.
Proof.
  revert m; induction toks as [|t toks IH]; intros m; cbn [envLoop].
  - cbn. intros tok Hin. now apply elem_of_nil in Hin.
  - destruct (loneQuote_dec t) as [Hq|Hq].
    + rewrite (envLine_lone_quote (Some m) t Hq). cbn.
      split; [reflexivity|]. exists t. split; [left | exact Hq].
    + rewrite (envLine_merge m t Hq). specialize (IH (merge m t)).
      destruct (envLoop (Some (merge m t)) toks).1 as [ret|msg].
      * intros tok Hin. apply elem_of_cons in Hin as [->|Hin]; auto.
      * destruct IH as (-> & tok & Hin & Hl). split; [reflexivity|].
        exists tok. split; [now right | exact Hl].
Qed.

Lemma loadEnv_panics w (p : Process) m :
  Env p = Some m →
  match (loadEnv w p).2 with
  | Panicked msg =>
      msg = "slice bounds out of range" ∧ EnvFile p ≠ EmptyString
      ∧ ∃ tok, tok ∈ fileTokens w (EnvFile p) ∧ loneQuote tok
  | Returned _ =>
      EnvFile p ≠ EmptyString →
      ∀ tok, tok ∈ fileTokens w (EnvFile p) → ¬ loneQuote tok
  end.
Proof.
  intros Hm. unfold loadEnv, loadEnvFile, fileTokens.
  case_bool_decide as He; [|cbn; intros H; contradiction].
  destruct (osOpen w (EnvFile p)) as [err|content rerr].
  { cbn. intros _ tok Hin. now apply elem_of_nil in Hin. }
  destruct (Bufio.scanLines content) as [toks long]; cbn [fst]. rewrite Hm.
  pose proof (envLoop_panics m toks) as H.
  destruct (envLoop (Some m) toks) as [[ret|msg] env']; cbn in *.
  - intros _. exact H.
  - destruct H as (-> & H). auto.
Qed.

End Panics.

(** X12. [Run] panics exactly when it is not running, [File] and
    [EnvFile] are set, and a line that the scanner delivers from the
    environment file has a single quote character as its whole trimmed
    value; the panic is then the slice-bounds one. In every other case
    [Run] returns. *)
Theorem Run_panics_only_on_lone_quote :
  ∀ (w : World) (p : Process),
    ((∃ msg, runRet (Run w p) = Panicked msg)
     ↔ running p = false ∧ File p ≠ EmptyString ∧ EnvFile p ≠ EmptyString
       ∧ ∃ tok, tok ∈ fileTokens w (EnvFile p) ∧ EnvFileSpec.loneQuote tok)
    ∧ (∀ msg, runRet (Run w p) = Panicked msg →
              msg = "slice bounds out of range").
Proof.
  intros w p.
  pose proof (loadEnv_panics w (initEnv p) _ (initEnv_Env p)) as H.
  destruct (initEnv_frame p) as (_ & HEF & _). rewrite HEF in H.
  destruct (Run_path w p)
    as [Hr|Hr Hf|msg Hr Hf Hl|cause Hr Hf Hl|err Hr Hf Hl Hs
        |pid r Hr Hf Hl Hs R F E]; cbn [runRet runDone];
    try rewrite Hl in H; try rewrite R.
  - split; [|intros msg Hm; discriminate].
    split; [intros [msg Hm]; discriminate | intros (Hr' & _); congruence].
  - split; [|intros msg Hm; discriminate].
    split; [intros [msg Hm]; discriminate | intros (_ & Hf' & _); congruence].
  - destruct H as (-> & He & Htok). split.
    + split; [intros _; auto | eauto].
    + intros msg Hm. now inversion Hm.
  - split; [|intros msg Hm; discriminate].
    split; [intros [msg Hm]; discriminate|].
    intros (_ & _ & He & tok & Hin & Hq). exfalso. exact (H He tok Hin Hq).
  - split; [|intros msg Hm; discriminate].
    split; [intros [msg Hm]; discriminate|].
    intros (_ & _ & He & tok & Hin & Hq). exfalso. exact (H He tok Hin Hq).
  - split; [|intros msg Hm; discriminate].
    split; [intros [msg Hm]; discriminate|].
    intros (_ & _ & He & tok & Hin & Hq). exfalso. exact (H He tok Hin Hq).
Qed.

(** ** Keys read from the environment file *)

Section Keys.

Implicit Types (s t : string) (c sep : ascii).

Lemma occurs_app c s t : occurs c (s +:+ t) = occurs c s || occurs c t.
Proof.
  induction s as [|a s IH]; [reflexivity|].
  rewrite append_cons. cbn [occurs]. now rewrite IH, orb_assoc.
Qed.

Lemma occurs_rev_app c s t :
  occurs c (String.rev_app s t) = occurs c s || occurs c t.
Proof.
  revert t; induction s as [|a s IH]; intros t; [reflexivity|].
  cbn [String.rev_app occurs]. rewrite IH. cbn [occurs].
  now destruct (Ascii.eqb a c), (occurs c s), (occurs c t).
Qed.

Lemma occurs_rev c s : occurs c (String.rev s) = occurs c s.
Proof. unfold String.rev. rewrite occurs_rev_app. cbn. apply orb_false_r. Qed.

Lemma TrimLeftSpace_cons a s1 :
  TrimLeftSpace (String a s1)
  = if asciiSpace a then TrimLeftSpace s1
    else match s1 with
         | EmptyString => String a s1
         | String b s2 =>
             if isSpace2 a b then TrimLeftSpace s2
             else match s2 with
                  | EmptyString => String a s1
                  | String d s3 =>
                      if isSpace3 a b d then TrimLeftSpace s3
                      else String a s1
                  end
         end.
Proof. reflexivity. Qed.

Lemma trimRev_cons a s1 :
  trimRev (String a s1)
  = if asciiSpace a then trimRev s1
    else match s1 with
         | EmptyString => String a s1
         | String b s2 =>
             if isSpace2 b a then trimRev s2
             else match s2 with
                  | EmptyString => String a s1
                  | String d s3 =>
                      if isSpace3 d b a then trimRev s3 else String a s1
                  end
         end.
Proof. reflexivity. Qed.

(** Trimming only removes bytes. *)
Lemma TrimLeftSpace_occurs c (n : nat) :
  ∀ s, (String.length s <= n)%nat →
       occurs c (TrimLeftSpace s) = true → occurs c s = true.
Proof.
  induction n as [|n IH]; intros s Hn.
  { destruct s; [trivial | cbn in Hn; lia]. }
  destruct s as [|a s1]; [trivial|]. rewrite TrimLeftSpace_cons.
  cbn [String.length] in Hn. destruct (asciiSpace a).
  { intros H. apply IH in H; [|lia]. cbn [occurs]. rewrite H.
    apply orb_true_r. }
  destruct s1 as [|b s2]; [trivial|].
  cbn [String.length] in Hn. destruct (isSpace2 a b).
  { intros H. apply IH in H; [|lia]. cbn [occurs]. rewrite H.
    now rewrite !orb_true_r. }
  destruct s2 as [|d s3]; [trivial|].
  cbn [String.length] in Hn. destruct (isSpace3 a b d); [|trivial].
  intros H. apply IH in H; [|lia]. cbn [occurs]. rewrite H.
  now rewrite !orb_true_r.
Qed.

Lemma trimRev_occurs c (n : nat) :
  ∀ s, (String.length s <= n)%nat →
       occurs c (trimRev s) = true → occurs c s = true.
Proof.
  induction n as [|n IH]; intros s Hn.
  { destruct s; [trivial | cbn in Hn; lia]. }
  destruct s as [|a s1]; [trivial|]. rewrite trimRev_cons.
  cbn [String.length] in Hn. destruct (asciiSpace a).
  { intros H. apply IH in H; [|lia]. cbn [occurs]. rewrite H.
    apply orb_true_r. }
  destruct s1 as [|b s2]; [trivial|].
  cbn [String.length] in Hn. destruct (isSpace2 b a).
  { intros H. apply IH in H; [|lia]. cbn [occurs]. rewrite H.
    now rewrite !orb_true_r. }
  destruct s2 as [|d s3]; [trivial|].
  cbn [String.length] in Hn. destruct (isSpace3 d b a); [|trivial].
  intros H. apply IH in H; [|lia]. cbn [occurs]. rewrite H.
  now rewrite !orb_true_r.
Qed.

Lemma TrimSpace_occurs c s :
  occurs c s = false → occurs c (TrimSpace s) = false.
Proof.
  intros H. destruct (occurs c (TrimSpace s)) eqn:E; [|reflexivity].
  unfold TrimSpace, TrimRightSpace in E. rewrite occurs_rev in E.
  apply (trimRev_occurs c _ _ (Nat.le_refl _)) in E. rewrite occurs_rev in E.
  apply (TrimLeftSpace_occurs c _ _ (Nat.le_refl _)) in E. congruence.
Qed.

Lemma cut_before sep s a b : cut sep s = Some (a, b) → occurs sep a = false.
Proof.
  revert a b; induction s as [|x s IH]; intros a b; cbn [cut]; [discriminate|].
  destruct (Ascii.eqb x sep) eqn:Hx.
  - intros H; inversion H; subst. reflexivity.
  - destruct (cut sep s) as [[a' b']|]; [|discriminate].
    intros H; inversion H; subst. cbn [occurs]. rewrite Hx.
    now rewrite (IH a' b).
Qed.

Lemma cut_join sep a b :
  occurs sep a = false → cut sep (a +:+ String sep b) = Some (a, b).
Proof.
  induction a as [|x a IH]; intros H.
  - change (EmptyString +:+ String sep b) with (String sep b).
    cbn [cut]. now rewrite Ascii.eqb_refl.
  - cbn [occurs] in H. apply orb_false_iff in H as [Hx Ha].
    rewrite append_cons. cbn [cut]. rewrite Hx. now rewrite IH.
Qed.

(** What a binding line went through. *)
Lemma parseLine_Binding (text k v : string) :
  parseLine text = Binding k v →
  ∃ part0 part1, cut "=" (TrimSpace text) = Some (part0, part1)
                 ∧ k = TrimSpace part0.
Proof.
  unfold parseLine, SplitN2.
  destruct (bool_decide (TrimSpace text = EmptyString)
            || HasPrefix (TrimSpace text) "#"); [discriminate|].
  destruct (cut "=" (TrimSpace text)) as [[part0 part1]|]; [|discriminate].
  intros H. exists part0, part1. split; [reflexivity|].
  destruct (quoted (TrimSpace part1)).
  - destruct (sliceStr _ _ _); [|discriminate]. now inversion H.
  - now inversion H.
Qed.

End Keys.

(** X13. A key that [loadEnvFile] takes from a line never contains [=]:
    so the [KEY=VALUE] entry that [Run] hands to the child for it splits
    at its first [=] into exactly this key and this value, also when the
    value itself contains [=]. *)
Theorem file_key_has_no_equals_sign :
  ∀ (text k v : string),
    parseLine text = Binding k v →
    occurs "=" k = false
    ∧ cut "=" (envEntry k v) = Some (k, v)
    ∧ SplitN2 (envEntry k v) "=" = [k; v].
Proof.
  intros text k v H.
  destruct (parseLine_Binding text k v H) as (part0 & part1 & Hc & ->).
  assert (Hk : occurs "=" (TrimSpace part0) = false).
  { apply TrimSpace_occurs. exact (cut_before _ _ _ _ Hc). }
  assert (Hcut : cut "=" (envEntry (TrimSpace part0) v)
                 = Some (TrimSpace part0, v)).
  { unfold envEntry. now apply (cut_join "=" (TrimSpace part0) v). }
  split; [exact Hk|]. split; [exact Hcut|].
  unfold SplitN2. now rewrite Hcut.
Qed.

(** A line whose value holds [=]. *)
Lemma file_key_of_url_line :
  occurs "=" "URL" = false
  ∧ cut "=" (envEntry "URL" "http://h/?a=b") = Some ("URL", "http://h/?a=b")
  ∧ SplitN2 (envEntry "URL" "http://h/?a=b") "=" = ["URL"; "http://h/?a=b"].
Proof.
  apply (file_key_has_no_equals_sign " URL = http://h/?a=b ").
  vm_compute. reflexivity.
Defined.

(** ** Finding the project root *)

Section ProjectRootSearch.
Import Workdir.

Implicit Types (fs : FS) (dir found start : string).

Lemma ancestor_S fs (k : nat) dir :
  ancestor fs (S k) dir = ancestor fs k (Dir fs dir).
Proof. reflexivity. Qed.

(** The loop finds the first directory on the way up that holds
    [go.mod], if it comes within the bound and before the root. *)
Lemma search_Some fs (n : nat) dir found :
  search fs n dir = Some found
  ↔ ∃ k, (k < n)%nat ∧ found = ancestor fs k dir ∧ hasGoMod fs found
         ∧ ∀ j, (j < k)%nat →
                ¬ hasGoMod fs (ancestor fs j dir)
                ∧ Dir fs (ancestor fs j dir) ≠ ancestor fs j dir.
Proof.
  revert dir; induction n as [|n IH]; intros dir; cbn [search].
  { split; [discriminate | intros (k & Hk & _); lia]. }
  unfold hasGoMod in *.
  destruct (Stat fs (Join fs dir "go.mod")) as [err|] eqn:Hst.
  - case_bool_decide as Hroot.
    + split; [discriminate|]. intros (k & Hk & -> & Hg & Hnear).
      destruct k as [|k]; [cbn in Hg; congruence|].
      destruct (Hnear 0%nat ltac:(lia)) as (_ & Hne). now cbn in Hne.
    + rewrite IH. split.
      * intros (k & Hk & -> & Hg & Hnear). exists (S k).
        split; [lia|]. split; [reflexivity|]. split; [exact Hg|].
        intros [|j] Hj; [cbn; split; [congruence | exact Hroot]|].
        rewrite ancestor_S. apply Hnear. lia.
      * intros (k & Hk & -> & Hg & Hnear).
        destruct k as [|k]; [cbn in Hg; congruence|].
        exists k. split; [lia|]. split; [reflexivity|]. split; [exact Hg|].
        intros j Hj. rewrite <- ancestor_S. apply Hnear. lia.
  - split.
    + intros H; inversion H; subst. exists 0%nat.
      split; [lia|]. split; [reflexivity|]. split; [exact Hst|].
      intros j Hj; lia.
    + intros (k & Hk & -> & Hg & Hnear). destruct k as [|k]; [reflexivity|].
      destruct (Hnear 0%nat ltac:(lia)) as (Hno & _). now cbn in Hno.
Qed.

Lemma search_None fs (n : nat) dir :
  (∀ k, (k < n)%nat → ¬ hasGoMod fs (ancestor fs k dir)) →
  search fs n dir = None.
Proof.
  intros H. destruct (search fs n dir) as [found|] eqn:E; [|reflexivity].
  apply search_Some in E as (k & Hk & -> & Hg & _). now apply H in Hg.
Qed.

Lemma lacksGoMod_check fs (n : nat) start :
  forallb (λ k, lacksGoMod fs (ancestor fs k start)) (seq 0 n) = true →
  ∀ k, (k < n)%nat → ¬ hasGoMod fs (ancestor fs k start).
Proof.
  rewrite forallb_forall. intros H k Hk Hg.
  assert (Hin : In k (seq 0 n)) by (apply in_seq; lia).
  apply H in Hin. unfold lacksGoMod, hasGoMod in *. now rewrite Hg in Hin.
Qed.

End ProjectRootSearch.

(** X14. [ProjectRoot] succeeds with a directory exactly when the working
    directory and its resolution are available and that directory is the
    nearest one, going up from the resolved working directory, that holds
    [go.mod], found in fewer than 30 steps and before the root stops the
    walk. *)
Theorem ProjectRoot_finds_nearest_go_mod :
  ∀ (fs : Workdir.FS) (found : string),
    Workdir.ProjectRoot fs = (found, None)
    ↔ ∃ cwd start k,
        Workdir.Getwd fs = inr cwd
        ∧ Workdir.EvalSymlinks fs cwd = inr start
        ∧ (k < Workdir.MaxSearchIterations)%nat
        ∧ found = Workdir.ancestor fs k start
        ∧ Workdir.hasGoMod fs found
        ∧ ∀ j, (j < k)%nat →
               ¬ Workdir.hasGoMod fs (Workdir.ancestor fs j start)
               ∧ Workdir.Dir fs (Workdir.ancestor fs j start)
                 ≠ Workdir.ancestor fs j start.
Proof.
  intros fs found. unfold Workdir.ProjectRoot.
  destruct (Workdir.Getwd fs) as [err|cwd].
  { split; [discriminate | intros (c & s & k & H & _); discriminate]. }
  destruct (Workdir.EvalSymlinks fs cwd) as [err|start] eqn:Hev.
  { split; [discriminate|]. intros (c & s & k & Hc & He & _).
    inversion Hc; subst. congruence. }
  destruct (Workdir.search fs Workdir.MaxSearchIterations start)
    as [found'|] eqn:Hs.
  - split.
    + intros H; inversion H; subst found'.
      apply search_Some in Hs as (k & Hk). exists cwd, start, k. tauto.
    + intros (c & s & k & Hc & He & Hk). inversion Hc; subst c.
      rewrite Hev in He; inversion He; subst s.
      assert (Hs' : Workdir.search fs Workdir.MaxSearchIterations start
                    = Some found) by (apply search_Some; exists k; tauto).
      congruence.
  - split; [discriminate|].
    intros (c & s & k & Hc & He & Hk). inversion Hc; subst c.
    rewrite Hev in He; inversion He; subst s.
    assert (Hs' : Workdir.search fs Workdir.MaxSearchIterations start
                  = Some found) by (apply search_Some; exists k; tauto).
    congruence.
Qed.

(** X15. The walk gives up after 30 directories: when none of the
    resolved working directory and its first 29 ancestors holds [go.mod],
    [ProjectRoot] returns the empty path and the not-found error, even
    when a directory further up holds [go.mod]. *)
Theorem ProjectRoot_gives_up_after_30 :
  ∀ (fs : Workdir.FS) (cwd start : string),
    Workdir.Getwd fs = inr cwd →
    Workdir.EvalSymlinks fs cwd = inr start →
    (∀ k, (k < 30)%nat →
          ¬ Workdir.hasGoMod fs (Workdir.ancestor fs k start)) →
    Workdir.ProjectRoot fs
    = (EmptyString, Some (errorString "go.mod not found after 30 iterations")).
Proof.
  intros fs cwd start Hc He Hno. unfold Workdir.ProjectRoot.
  rewrite Hc, He.
  now rewrite (search_None fs Workdir.MaxSearchIterations start Hno).
Qed.

(** Thirty levels below the directory with [go.mod] the root is not
    found, although the thirtieth ancestor holds the file. *)
Lemma ProjectRoot_thirty_levels_down :
  Workdir.ProjectRoot (Workdir.sampleFS (Workdir.deepDir 30 "/work/proj"))
  = (EmptyString, Some (errorString "go.mod not found after 30 iterations"))
  ∧ Workdir.hasGoMod (Workdir.sampleFS (Workdir.deepDir 30 "/work/proj"))
      (Workdir.ancestor (Workdir.sampleFS (Workdir.deepDir 30 "/work/proj"))
         30 (Workdir.deepDir 30 "/work/proj")).
Proof.
  split.
  - apply (ProjectRoot_gives_up_after_30
             (Workdir.sampleFS (Workdir.deepDir 30 "/work/proj"))
             (Workdir.deepDir 30 "/work/proj")
             (Workdir.deepDir 30 "/work/proj")).
    + reflexivity.
    + reflexivity.
    + apply lacksGoMod_check. vm_compute. reflexivity.
  - vm_compute. reflexivity.
Defined.

(** ** What [Run] leaves alone, and searching through the process *)

Lemma prepared_config (w : World) (p : Process) :
  File (prepared w p) = File p ∧ EnvFile (prepared w p) = EnvFile p
  ∧ LogStream (prepared w p) = LogStream p
  ∧ WaitingFor (prepared w p) = WaitingFor p.
Proof.
  unfold prepared. destruct (loadEnv_frame w p) as (env' & ->). repeat split.
Qed.

(** X16. [Run] never changes the configuration it was given: [File],
    [EnvFile], [LogStream] and [WaitingFor] are after the call what they
    were before, on every path, also when it fails or panics; and when
    the process is already running or [File] is empty the whole process
    state is left as it was. *)
Theorem Run_keeps_configuration :
  ∀ (w : World) (p : Process),
    File (runProc (Run w p)) = File p
    ∧ EnvFile (runProc (Run w p)) = EnvFile p
    ∧ LogStream (runProc (Run w p)) = LogStream p
    ∧ WaitingFor (runProc (Run w p)) = WaitingFor p
    ∧ (running p = true ∨ File p = EmptyString → runProc (Run w p) = p).
Proof.
  intros w p. destruct (prepared_config w p) as (P1 & P2 & P3 & P4).
  destruct (Run_path w p)
    as [Hr|Hr Hf|msg Hr Hf Hl|cause Hr Hf Hl|err Hr Hf Hl Hs
        |pid r Hr Hf Hl Hs R F E]; cbn [runProc runDone].
  - repeat split.
  - repeat split.
  - destruct (loadEnv_frame w p) as (env' & ->).
    repeat split. intros [H|H]; congruence.
  - destruct (loadEnv_frame w p) as (env' & ->).
    repeat split. intros [H|H]; congruence.
  - rewrite P1, P2, P3, P4. repeat split. intros [H|H]; congruence.
  - destruct F as (F1 & _ & F3 & F4 & F5 & _).
    rewrite <- F1, <- F3, <- F4, <- F5. cbn [File EnvFile LogStream WaitingFor
      setRunning setCmd]. rewrite P1, P2, P3, P4.
    repeat split. intros [H|H]; congruence.
Qed.

(** X17. [ContainsOutput] holds of a text exactly when the process has a
    capture buffer and the text occurs in [GetOutput]; so for the empty
    text it tells whether a buffer exists: false before [Run] created
    one, true ever after. *)
Theorem ContainsOutput_iff_buffer_and_substring :
  ∀ (p : Process) (text : string),
    (ContainsOutput p text = true
     ↔ safeWriter p ≠ None ∧ ∃ pre post, GetOutput p = pre +:+ text +:+ post)
    ∧ (ContainsOutput p EmptyString = true ↔ safeWriter p ≠ None).
Proof.
  intros p text. unfold ContainsOutput, GetOutput.
  destruct (safeWriter p) as [tsw|].
  - unfold containsOutput, getOutput. split.
    + rewrite Contains_spec. split; [intros H; split; [discriminate | exact H]
                                    | intros [_ H]; exact H].
    + rewrite Contains_unfold, HasPrefix_empty. split; [discriminate | reflexivity].
  - split; (split; [discriminate | intros H]).
    + destruct H as [H _]. now contradiction H.
    + now contradiction H.
Qed.

(** ** The error that [Run] returns *)

Section RunErrors.

Implicit Types (w : World) (p : Process).

Lemma noLoneQuote_tokens_check w (path : string) :
  forallb (λ l, negb (loneQuoteb l)) (fileTokens w path) = true →
  noLoneQuote w path.
Proof.
  rewrite forallb_forall. intros H tok Hin Hl.
  apply loneQuote_b in Hl. apply list_elem_of_In, H in Hin.
  now rewrite Hl in Hin.
Qed.

Lemma loadEnv_no_file w p :
  EnvFile p = EmptyString → (loadEnv w (initEnv p)).2 = Returned None.
Proof.
  intros He. unfold loadEnv. destruct (initEnv_frame p) as (_ & -> & _).
  rewrite He. now rewrite bool_decide_eq_false_2 by (intros H; now apply H).
Qed.

(** When no line makes it panic, the loader returns what reading the
    file gave. *)
Lemma loadEnv_result w p :
  EnvFile p ≠ EmptyString → noLoneQuote w (EnvFile p) →
  (loadEnv w (initEnv p)).2 = Returned (envFileFailure w (EnvFile p)).
Proof.
  intros Hne Hq. unfold loadEnv, loadEnvFile, envFileFailure.
  destruct (initEnv_frame p) as (_ & -> & _).
  rewrite (bool_decide_eq_true_2 _ Hne).
  unfold noLoneQuote, fileTokens in Hq.
  destruct (osOpen w (EnvFile p)) as [err|content rerr]; [reflexivity|].
  destruct (Bufio.scanLines content) as [toks long]; cbn [fst snd] in *.
  rewrite initEnv_Env, (envLoop_fold _ toks Hq). reflexivity.
Qed.

(** A loader that returned had no lone-quote line to read. *)
Lemma loadEnv_returned w p (ret : option error) :
  (loadEnv w (initEnv p)).2 = Returned ret →
  EnvFile p ≠ EmptyString → noLoneQuote w (EnvFile p).
Proof.
  intros Hl Hne.
  pose proof (loadEnv_panics w (initEnv p) _ (initEnv_Env p)) as H.
  destruct (initEnv_frame p) as (_ & HEF & _). rewrite HEF, Hl in H.
  exact (H Hne).
Qed.

(** The loader's verdict, read off the world. *)
Lemma loadEnv_ok_iff w p :
  (loadEnv w (initEnv p)).2 = Returned None
  ↔ EnvFile p = EmptyString
    ∨ (EnvFile p ≠ EmptyString ∧ noLoneQuote w (EnvFile p)
       ∧ envFileFailure w (EnvFile p) = None).
Proof.
  split.
  - intros Hl. destruct (decide (EnvFile p = EmptyString)) as [He|He];
      [now left|]. right.
    pose proof (loadEnv_returned w p None Hl He) as Hq.
    rewrite (loadEnv_result w p He Hq) in Hl. inversion Hl. auto.
  - intros [He|(He & Hq & Hf)]; [now apply loadEnv_no_file|].
    now rewrite (loadEnv_result w p He Hq), Hf.
Qed.

Lemma loadEnv_fails_iff w p (cause : error) :
  (loadEnv w (initEnv p)).2 = Returned (Some cause)
  ↔ EnvFile p ≠ EmptyString ∧ noLoneQuote w (EnvFile p)
    ∧ envFileFailure w (EnvFile p) = Some cause.
Proof.
  split.
  - intros Hl. destruct (decide (EnvFile p = EmptyString)) as [He|He].
    { rewrite (loadEnv_no_file w p He) in Hl. discriminate. }
    pose proof (loadEnv_returned w p _ Hl He) as Hq.
    rewrite (loadEnv_result w p He Hq) in Hl. inversion Hl. auto.
  - intros (He & Hq & Hf). now rewrite (loadEnv_result w p He Hq), Hf.
Qed.

End RunErrors.

(** C3 (amended). A call of [Run] on a process that is already running
    returns [nil] and changes nothing, whatever [File] holds. Otherwise
    [Run] returns an error exactly when a step before the process exists
    fails. With an empty [File] it returns the configuration error and
    changes nothing. With an [EnvFile] that cannot be loaded - it cannot
    be opened, a read fails, or a line exceeds the scanner's buffer - and
    no line read before has a single quote as its value, it returns the
    error that wraps exactly that cause, with nothing spawned and the
    command and the writer untouched. When the environment is loaded and
    creating the pipes or starting the command fails, it returns exactly
    that error. After every call that returns an error [running] is
    false and nothing was started; [running] becomes true only with a
    start event. *)
Theorem Run_errors_only_before_spawn :
  ∀ (w : World) (p : Process),
    (running p = true → Run w p = runDone p (Returned None))
    ∧ (running p = false → File p = EmptyString →
         Run w p
         = runDone p (Returned (Some (errorString "no file specified"))))
    ∧ (∀ cause, running p = false → File p ≠ EmptyString →
         EnvFile p ≠ EmptyString → noLoneQuote w (EnvFile p) →
         envFileFailure w (EnvFile p) = Some cause →
         runRet (Run w p)
         = Returned (Some (wrapError "failed to load env file: " cause))
         ∧ Unwrap (wrapError "failed to load env file: " cause) = Some cause
         ∧ runEvents (Run w p) = []
         ∧ running (runProc (Run w p)) = false
         ∧ cmd (runProc (Run w p)) = cmd p
         ∧ safeWriter (runProc (Run w p)) = safeWriter p)
    ∧ (∀ cause, running p = false → File p ≠ EmptyString →
         EnvFile p ≠ EmptyString → osOpen w (EnvFile p) = OpenFails cause →
         runRet (Run w p)
         = Returned (Some (wrapError "failed to load env file: " cause)))
    ∧ (∀ err, running p = false → File p ≠ EmptyString →
         EnvFile p = EmptyString
         ∨ (noLoneQuote w (EnvFile p) ∧ envFileFailure w (EnvFile p) = None) →
         startError (osStart w) = Some err →
         runRet (Run w p) = Returned (Some err)
         ∧ runEvents (Run w p) = []
         ∧ running (runProc (Run w p)) = false)
    ∧ ((∃ e, runRet (Run w p) = Returned (Some e)) ↔
         running p = false
         ∧ (File p = EmptyString
            ∨ (File p ≠ EmptyString ∧ EnvFile p ≠ EmptyString
               ∧ noLoneQuote w (EnvFile p)
               ∧ ∃ cause, envFileFailure w (EnvFile p) = Some cause)
            ∨ (File p ≠ EmptyString
               ∧ (EnvFile p = EmptyString
                  ∨ (noLoneQuote w (EnvFile p)
                     ∧ envFileFailure w (EnvFile p) = None))
               ∧ ∃ err, startError (osStart w) = Some err)))
    ∧ (∀ e, runRet (Run w p) = Returned (Some e) →
         running (runProc (Run w p)) = false ∧ runEvents (Run w p) = [])
    ∧ (running p = false → running (runProc (Run w p)) = true →
         ∃ pid, osStart w = Started pid
                ∧ EvStart (startedCmd w p pid) ∈ runEvents (Run w p)).
Proof.
  intros w p.
  assert (HC : ∀ cause, running p = false → File p ≠ EmptyString →
         EnvFile p ≠ EmptyString → noLoneQuote w (EnvFile p) →
         envFileFailure w (EnvFile p) = Some cause →
         runRet (Run w p)
         = Returned (Some (wrapError "failed to load env file: " cause))
         ∧ Unwrap (wrapError "failed to load env file: " cause) = Some cause
         ∧ runEvents (Run w p) = []
         ∧ running (runProc (Run w p)) = false
         ∧ cmd (runProc (Run w p)) = cmd p
         ∧ safeWriter (runProc (Run w p)) = safeWriter p).
  { intros cause Hr Hf He Hq Hfail.
    assert (Hl : (loadEnv w (initEnv p)).2 = Returned (Some cause))
      by (apply loadEnv_fails_iff; auto).
    destruct (loadEnv_frame w p) as (env' & Hp).
    rewrite Run_proceeds by assumption. rewrite Hl, Hp.
    cbn [runRet runEvents runProc runDone]. repeat split. exact Hr. }
  assert (HD : ∀ err, running p = false → File p ≠ EmptyString →
         EnvFile p = EmptyString
         ∨ (noLoneQuote w (EnvFile p) ∧ envFileFailure w (EnvFile p) = None) →
         startError (osStart w) = Some err →
         runRet (Run w p) = Returned (Some err)
         ∧ runEvents (Run w p) = []
         ∧ running (runProc (Run w p)) = false).
  { intros err Hr Hf Hload Hs.
    assert (Hl : (loadEnv w (initEnv p)).2 = Returned None).
    { apply loadEnv_ok_iff. destruct Hload as [He|(Hq & Hn)]; [now left|].
      destruct (decide (EnvFile p = EmptyString)); [now left | now right]. }
    rewrite Run_proceeds by assumption. rewrite Hl.
    pose proof (spawn_spec w (loadEnv w (initEnv p)).1) as Hsp.
    cbv zeta in Hsp.
    destruct (osStart w) as [e|e|e|pid]; cbn in Hs; inversion Hs; subst e;
      rewrite Hsp; cbn [runRet runEvents runProc runDone];
      (split; [reflexivity|]; split; [reflexivity|]);
      destruct (loadEnv_frame w p) as (env' & ->); exact Hr. }
  split; [apply Run_running|]. split; [apply Run_no_file|].
  split; [exact HC|]. split.
  { intros cause Hr Hf He Hopen.
    apply (HC cause Hr Hf He).
    - intros tok Hin. unfold fileTokens in Hin. rewrite Hopen in Hin.
      now apply elem_of_nil in Hin.
    - unfold envFileFailure. now rewrite Hopen. }
  split; [exact HD|]. split; [|split].
  - split.
    + destruct (Run_path w p)
        as [Hr|Hr Hf|msg Hr Hf Hl|cause Hr Hf Hl|err Hr Hf Hl Hs
            |pid r Hr Hf Hl Hs R F E]; cbn [runRet runDone];
        intros [e He]; try discriminate.
      * split; [exact Hr | now left].
      * split; [exact Hr|]. right; left.
        apply loadEnv_fails_iff in Hl as (Hne & Hq & Hfail). eauto 6.
      * split; [exact Hr|]. right; right.
        split; [exact Hf|]. split; [|eauto].
        apply loadEnv_ok_iff in Hl as [Hl|(_ & Hq & Hn)]; auto.
      * congruence.
    + intros (Hr & [Hf|[(Hf & He & Hq & cause & Hfail)
                        |(Hf & Hload & err & Hs)]]).
      * rewrite (Run_no_file w p Hr Hf). cbn. eauto.
      * destruct (HC cause Hr Hf He Hq Hfail) as (H & _). eauto.
      * destruct (HD err Hr Hf Hload Hs) as (H & _). eauto.
  - intros e. destruct (Run_path w p)
      as [Hr|Hr Hf|msg Hr Hf Hl|cause Hr Hf Hl|err Hr Hf Hl Hs
          |pid r Hr Hf Hl Hs R F E]; cbn [runRet runDone runProc runEvents];
      intros He; try discriminate; try (split; [assumption|reflexivity]).
    + destruct (loadEnv_frame w p) as (env' & ->). now split.
    + split; [|reflexivity]. unfold prepared.
      destruct (loadEnv_frame w p) as (env' & ->). exact Hr.
    + congruence.
  - intros Hr. destruct (Run_path w p)
      as [Hr'|Hr' Hf|msg Hr' Hf Hl|cause Hr' Hf Hl|err Hr' Hf Hl Hs
          |pid r Hr' Hf Hl Hs R F (evs & E & D)];
      cbn [runProc runDone runEvents]; intros Hrun; try congruence.
    + destruct (loadEnv_frame w p) as (env' & Hp). rewrite Hp in Hrun.
      cbn in Hrun. congruence.
    + destruct (loadEnv_frame w p) as (env' & Hp). rewrite Hp in Hrun.
      cbn in Hrun. congruence.
    + unfold prepared in Hrun.
      destruct (loadEnv_frame w p) as (env' & Hp). rewrite Hp in Hrun.
      cbn in Hrun. congruence.
    + exists pid. split; [exact Hs|]. rewrite E. left.
Qed.

(** [Run] on a process whose environment file does not exist, on one
    whose file has an over-long line, and in a world where the command
    cannot be started. *)
Lemma Run_errors_on_missing_env_file :
  (runRet (Run missingFileWorld envFileProcess)
   = Returned (Some (wrapError "failed to load env file: " (osError 2)))
   ∧ Unwrap (wrapError "failed to load env file: " (osError 2))
     = Some (osError 2)
   ∧ runEvents (Run missingFileWorld envFileProcess) = []
   ∧ running (runProc (Run missingFileWorld envFileProcess)) = false
   ∧ cmd (runProc (Run missingFileWorld envFileProcess)) = None
   ∧ safeWriter (runProc (Run missingFileWorld envFileProcess)) = None)
  ∧ (runRet (Run (envFileWorld longLineFile) envFileProcess)
     = Returned (Some (wrapError "failed to load env file: " ErrTooLong))
     ∧ Unwrap (wrapError "failed to load env file: " ErrTooLong)
       = Some ErrTooLong
     ∧ runEvents (Run (envFileWorld longLineFile) envFileProcess) = []
     ∧ running (runProc (Run (envFileWorld longLineFile) envFileProcess))
       = false
     ∧ cmd (runProc (Run (envFileWorld longLineFile) envFileProcess)) = None
     ∧ safeWriter (runProc (Run (envFileWorld longLineFile) envFileProcess))
       = None)
  ∧ (runRet (Run startFailsWorld freshProcess) = Returned (Some (osError 2))
     ∧ runEvents (Run startFailsWorld freshProcess) = []
     ∧ running (runProc (Run startFailsWorld freshProcess)) = false).
Proof.
  split; [|split].
  - apply (proj1 (proj2 (proj2
             (Run_errors_only_before_spawn missingFileWorld envFileProcess)))
             (osError 2)).
    + reflexivity.
    + vm_compute. discriminate.
    + vm_compute. discriminate.
    + apply noLoneQuote_tokens_check. vm_compute. reflexivity.
    + reflexivity.
  - apply (proj1 (proj2 (proj2
             (Run_errors_only_before_spawn (envFileWorld longLineFile)
                envFileProcess))) ErrTooLong).
    + reflexivity.
    + vm_compute. discriminate.
    + vm_compute. discriminate.
    + apply noLoneQuote_tokens_check. vm_compute. reflexivity.
    + vm_compute. reflexivity.
  - apply (proj1 (proj2 (proj2 (proj2 (proj2
             (Run_errors_only_before_spawn startFailsWorld freshProcess)))))
             (osError 2)).
    + reflexivity.
    + vm_compute. discriminate.
    + left. reflexivity.
    + reflexivity.
Defined.
